(** * Moderated chat client: [ModerationSystem] and [AIChat] of [final.py]

    A shallow embedding of the two classes of [final.py] and the properties
    of the moderation pipeline.

    Modelling choices.
    - A Python [str] is the [string] of its UTF-8 bytes; an ASCII text
      ([ascii_only]) has one byte for each character.  [keyword in text] is
      [contains keyword text], on every text.
    - [lower], [imatch], [re_sub_ignorecase] and [strip] are [str.lower],
      a match of [re.IGNORECASE], [re.sub] and [str.strip] on ASCII text:
      [lower] maps ['A'..'Z'] to ['a'..'z'] and leaves every other byte
      alone.  On other text Python folds case by the Unicode tables, and
      folds it differently in [str.lower] and in [re.IGNORECASE]; the
      theorems that rest on what these functions compute are stated for
      ASCII vocabularies and ASCII texts, the ones that hold whatever they
      compute are stated for every text.
    - [re.compile(re.escape(keyword), re.IGNORECASE).sub(repl, text)] is
      [re_sub_ignorecase keyword repl text]: the pattern is the literal
      keyword, matches are taken leftmost first and do not overlap, and an
      empty pattern matches once at every position.
    - The HTTP collaborator is a function from the request to what came
      back: [requests.post] and the two calls on its response raise a
      [RequestException] or return ([ApiReply]).  An exception of another
      class out of these library calls ([RecursionError] or [ValueError]
      of [response.json] on a body nested or numbered beyond its limits)
      is not modelled, and no theorem says that [send_message] or [main]
      raise nothing else.  [send_message] returns, next to its result, the
      list of the requests it posted.
    - A Python call either returns or raises: [Outcome].  The [print]
      calls of [send_message] are left out of [send_message] and are in
      [send_message_io].  [print] is modelled on text that standard output
      can encode. *)

From Stdlib Require Import List Bool Arith NArith Lia Ascii String.
From Equations Require Import Equations.
Import ListNotations.
Open Scope string_scope.

(** ** Strings *)

(** [str.lower] on one ASCII character; a byte of another character is
    left as it is. *)
Definition lower_ascii (c : ascii) : ascii :=
  let n := N_of_ascii c in
  if ((65 <=? n) && (n <=? 90))%N then ascii_of_N (n + 32) else c.

(** [text.lower()] for an ASCII [text]. *)
Fixpoint lower (s : string) : string :=
  match s with
  | EmptyString => EmptyString
  | String c s' => String (lower_ascii c) (lower s')
  end.

(** [needle in haystack]. *)
Fixpoint contains (needle haystack : string) : bool :=
  prefix needle haystack
  || match haystack with
     | EmptyString => false
     | String _ rest => contains needle rest
     end.

(** [s[n:]]. *)
Fixpoint drop (n : nat) (s : string) : string :=
  match n, s with
  | O, _ => s
  | S _, EmptyString => EmptyString
  | S n', String _ s' => drop n' s'
  end.

(** A text of ASCII characters only. *)
Fixpoint ascii_only (s : string) : bool :=
  match s with
  | EmptyString => true
  | String c s' => (N_of_ascii c <? 128)%N && ascii_only s'
  end.

(** ** Regular-expression substitution with a literal pattern *)

(** The literal pattern [pat], compiled with [re.IGNORECASE], matches at the
    start of [s], for ASCII [pat] and [s]. *)
Fixpoint imatch (pat s : string) : bool :=
  match pat, s with
  | EmptyString, _ => true
  | String _ _, EmptyString => false
  | String p pat', String c s' =>
      Ascii.eqb (lower_ascii p) (lower_ascii c) && imatch pat' s'
  end.

(** [re.compile(re.escape(pat), re.IGNORECASE).sub(repl, s)], for a [repl]
    without backslashes and for ASCII [pat] and [s]. *)
Equations? re_sub_ignorecase (pat repl s : string) : string by wf (length s) lt :=
  re_sub_ignorecase EmptyString repl EmptyString := repl;
  re_sub_ignorecase EmptyString repl (String c s') :=
    repl ++ String c (re_sub_ignorecase EmptyString repl s');
  re_sub_ignorecase (String p pat') repl EmptyString := EmptyString;
  re_sub_ignorecase (String p pat') repl (String c s')
    with imatch (String p pat') (String c s') := {
    | true := repl ++ re_sub_ignorecase (String p pat') repl (drop (length pat') s');
    | false := String c (re_sub_ignorecase (String p pat') repl s') }.
Proof.
  assert (Hdrop : forall n s, length (drop n s) <= length s).
  { induction n as [|n IH]; intros [|x s]; simpl; try lia.
    specialize (IH s); lia. }
  specialize (Hdrop (length pat') s'). lia.
Qed.

(** ** Configuration *)

Definition BANNED_KEYWORDS : list string :=
  [ "kill"; "murder"; "hack"; "bomb"; "exploit"; "steal";
    "drug"; "weapon"; "terror"; "abuse"; "scam"; "fraud";
    "suicide"; "self-harm"; "violence"; "illegal" ].

Definition SENSITIVE_PATTERNS : list string :=
  [ "how to make"; "how do i"; "teach me to"; "help me";
    "instructions for"; "guide to"; "steps to" ].

Definition REDACTED : string := "[REDACTED]".

(** ** ModerationSystem *)

Record ModerationSystem : Type := { banned_keywords : list string }.

(** [ModerationSystem.__init__], for ASCII keywords. *)
Definition ModerationSystem_init (raw_keywords : list string) : ModerationSystem :=
  {| banned_keywords := map lower raw_keywords |}.

(** A [for] loop whose body may [return]: [Some r] is the value returned by
    the first iteration that returns, [None] means the loop ran to its end. *)
Fixpoint for_return {A R : Type} (xs : list A) (body : A -> option R) : option R :=
  match xs with
  | [] => None
  | x :: xs' =>
      match body x with
      | Some r => Some r
      | None => for_return xs' body
      end
  end.

Definition prohibited_reason (keyword : string) : string :=
  "Input contains prohibited content: '" ++ keyword ++ "'".

Definition harmful_reason : string := "Input contains potentially harmful request".

Definition passed_reason : string := "Input passed moderation".

(** [ModerationSystem.check_input]: [(is_safe, reason)]. *)
Definition check_input (self : ModerationSystem) (text : string) : bool * string :=
  let text_lower := lower text in
  match for_return (banned_keywords self) (fun keyword =>
          if contains keyword text_lower
          then Some (false, prohibited_reason keyword) else None) with
  | Some r => r
  | None =>
      match for_return SENSITIVE_PATTERNS (fun pattern =>
              if contains pattern text_lower
              then for_return (banned_keywords self) (fun keyword =>
                     if contains keyword text_lower
                     then Some (false, harmful_reason) else None)
              else None) with
      | Some r => r
      | None => (true, passed_reason)
      end
  end.

(** One iteration of the loop of [moderate_output], on the pair
    [(moderated_text, was_modified)]. *)
Definition redact_keyword (state : string * bool) (keyword : string) : string * bool :=
  let (moderated_text, was_modified) := state in
  if contains keyword (lower moderated_text)
  then (re_sub_ignorecase keyword REDACTED moderated_text, true)
  else (moderated_text, was_modified).

(** [ModerationSystem.moderate_output]: [(moderated_text, was_modified)]. *)
Definition moderate_output (self : ModerationSystem) (text : string) : string * bool :=
  fold_left redact_keyword (banned_keywords self) (text, false).

(** ** Python values and exceptions *)

(** What [response.json()] can return. *)
#[warning="-register-all"]
Inductive PyVal : Type :=
| PNone
| PBool (b : bool)
| PNum (literal : string)
| PStr (s : string)
| PList (items : list PyVal)
| PDict (entries : list (string * PyVal)).

(** The exceptions that the code of [send_message] itself raises on a
    parsed body: by the subscripts of the extraction and by [lower] on a
    content that is no string.  Exceptions out of the library calls are not
    among them. *)
Inductive PyExc : Type := KeyError | IndexError | TypeError | AttributeError.

(** A call returns a value or raises. *)
Inductive Outcome (A : Type) : Type :=
| Returned (a : A)
| Raised (e : PyExc).
Arguments Returned {A} a.
Arguments Raised {A} e.

Definition bind {A B : Type} (c : Outcome A) (k : A -> Outcome B) : Outcome B :=
  match c with
  | Returned a => k a
  | Raised e => Raised e
  end.

Notation "x <- c ;; k" := (bind c (fun x => k))
  (at level 61, c at next level, right associativity).

(** Lookup in a parsed JSON object; its keys are distinct. *)
Fixpoint dict_get (key : string) (entries : list (string * PyVal)) : option PyVal :=
  match entries with
  | [] => None
  | (k, v) :: rest => if String.eqb k key then Some v else dict_get key rest
  end.

(** [v[key]] for a string [key]. *)
Definition getitem (v : PyVal) (key : string) : Outcome PyVal :=
  match v with
  | PDict entries =>
      match dict_get key entries with
      | Some x => Returned x
      | None => Raised KeyError
      end
  | _ => Raised TypeError
  end.

(** [v[0]]; the keys of a parsed JSON object are strings, so [0] is never
    one of them. *)
Definition getitem0 (v : PyVal) : Outcome PyVal :=
  match v with
  | PList (x :: _) => Returned x
  | PList [] => Raised IndexError
  | PStr (String c _) => Returned (PStr (String c EmptyString))
  | PStr EmptyString => Raised IndexError
  | PDict _ => Raised KeyError
  | _ => Raised TypeError
  end.

(** ** The HTTP collaborator *)

Record Request : Type := {
  req_url : string;
  req_authorization : string;
  req_content_type : string;
  req_model : string;
  req_messages : list (string * string);
  req_timeout : nat }.

(** What happens to one [requests.post] and to the two calls on its
    response.  The first three carry [str(e)] of the
    [RequestException] raised: by [requests.post] (connection error,
    timeout), by [response.raise_for_status()] (status not 2xx), by
    [response.json()] (body that is not JSON; the [JSONDecodeError] of
    [requests] is a [RequestException] from version 2.27 on).  The last one
    is a body that parsed, whatever its status line said within 2xx.  A
    call that raises an exception of another class has no case here. *)
Inductive ApiReply : Type :=
| PostRaises (e : string)
| StatusRaises (e : string)
| JsonRaises (e : string)
| JsonBody (ai_response : PyVal).

(** ** AIChat *)

Definition SYSTEM_PROMPT : string :=
  "You are a helpful, harmless, and honest AI assistant. 
You provide accurate information and refuse to help with harmful, illegal, or unethical requests.
You should be polite, professional, and respectful in all interactions.".

Record AIChat : Type := {
  api_key : string;
  api_url : string;
  model : string;
  moderator : ModerationSystem }.

(** [AIChat.__init__]. *)
Definition AIChat_init (api_key api_url model : string) : AIChat :=
  {| api_key := api_key; api_url := api_url; model := model;
     moderator := ModerationSystem_init BANNED_KEYWORDS |}.

(** The dictionary returned by [send_message], by its ["status"]. *)
Inductive ChatResult : Type :=
| Blocked (reason : string)
| Error (message : string)
| Moderated (message : PyVal) (warning : string)
| Success (message : PyVal).

Definition redacted_warning : string :=
  "Response contained restricted content that was redacted".

(** The dictionary itself. *)
Definition as_dict (r : ChatResult) : list (string * PyVal) :=
  match r with
  | Blocked reason =>
      [ ("status", PStr "blocked");
        ("message", PStr "Your input violated the moderation policy.");
        ("reason", PStr reason);
        ("moderation", PStr "input_blocked") ]
  | Error message =>
      [ ("status", PStr "error");
        ("message", PStr message);
        ("moderation", PStr "none") ]
  | Moderated message warning =>
      [ ("status", PStr "moderated");
        ("message", message);
        ("moderation", PStr "output_redacted");
        ("warning", PStr warning) ]
  | Success message =>
      [ ("status", PStr "success");
        ("message", message);
        ("moderation", PStr "passed") ]
  end.

(** [self.moderator.moderate_output(ai_message)] on whatever object the
    response held: an object that is not a [str] has no [lower], which the
    first iteration of the loop calls. *)
Definition moderate_output_obj (self : ModerationSystem) (ai_message : PyVal)
  : Outcome (PyVal * bool) :=
  match ai_message with
  | PStr text =>
      let (moderated_text, was_modified) := moderate_output self text in
      Returned (PStr moderated_text, was_modified)
  | _ =>
      match banned_keywords self with
      | [] => Returned (ai_message, false)
      | _ :: _ => Raised AttributeError
      end
  end.

(** [ai_response['choices'][0]['message']['content']]. *)
Definition extract_content (ai_response : PyVal) : Outcome PyVal :=
  choices <- getitem ai_response "choices" ;;
  choice <- getitem0 choices ;;
  message <- getitem choice "message" ;;
  getitem message "content".

Definition build_request (self : AIChat) (user_prompt system_prompt : string) : Request :=
  {| req_url := api_url self;
     req_authorization := "Bearer " ++ api_key self;
     req_content_type := "application/json";
     req_model := model self;
     req_messages := [ ("system", system_prompt); ("user", user_prompt) ];
     req_timeout := 30 |}.

(** [AIChat.send_message]: the outcome of the call and the requests posted. *)
Definition send_message (self : AIChat) (post : Request -> ApiReply)
    (user_prompt system_prompt : string) : Outcome ChatResult * list Request :=
  let (is_safe, reason) := check_input (moderator self) user_prompt in
  if negb is_safe then (Returned (Blocked reason), [])
  else
    let request := build_request self user_prompt system_prompt in
    (match post request with
     | PostRaises e | StatusRaises e | JsonRaises e =>
         Returned (Error ("API Error: " ++ e))
     | JsonBody ai_response =>
         ai_message <- extract_content ai_response ;;
         moderated <- moderate_output_obj (moderator self) ai_message ;;
         let (moderated_message, was_modified) := moderated : PyVal * bool in
         if was_modified
         then Returned (Moderated moderated_message redacted_warning)
         else Returned (Success moderated_message)
     end, [request]).

(** ** Specification vocabulary *)

(** [needle] occurs in [haystack] as a contiguous substring. *)
Definition occurs_in (needle haystack : string) : Prop :=
  exists before after, haystack = before ++ needle ++ after.

(** [term] occurs in [text] when case is ignored. *)
Definition occurs_ci (term text : string) : Prop :=
  occurs_in (lower term) (lower text).

(** A non-empty suffix of [x] is a prefix of [y]. *)
Definition overlaps (x y : string) : Prop :=
  exists u l r, u <> EmptyString /\ x = l ++ u /\ y = u ++ r.

(** [term] and [marker] cannot share characters in any text: neither occurs
    in the other and neither ends with a beginning of the other. *)
Definition apart (term marker : string) : Prop :=
  ~ occurs_in term marker /\ ~ occurs_in marker term /\
  ~ overlaps term marker /\ ~ overlaps marker term.

(** The single scan that the design notes describe: each banned term is
    tested against the lowercased text, in vocabulary order. *)
Definition check_input_single_pass (self : ModerationSystem) (text : string)
  : bool * string :=
  match find (fun keyword => contains keyword (lower text)) (banned_keywords self) with
  | Some keyword => (false, prohibited_reason keyword)
  | None => (true, passed_reason)
  end.

(** One pass for one term, as the specification words it: the text is cut
    into spans that are kept and occurrences of the term, found leftmost
    first, each of which becomes the marker.  The empty term occurs once at
    every position. *)
Inductive Redacts (term : string) : string -> string -> Prop :=
| Redacts_kept (s : string) :
    ~ occurs_ci term s ->
    Redacts term s s
| Redacts_occurrence (kept matched rest rest' : string) :
    term <> EmptyString ->
    lower matched = lower term ->
    (forall p m q, kept ++ matched ++ rest = p ++ m ++ q ->
                   lower m = lower term -> length kept <= length p) ->
    Redacts term rest rest' ->
    Redacts term (kept ++ matched ++ rest) (kept ++ REDACTED ++ rest')
| Redacts_empty_end :
    term = EmptyString ->
    Redacts term EmptyString REDACTED
| Redacts_empty_step (c : ascii) (s s' : string) :
    term = EmptyString ->
    Redacts term s s' ->
    Redacts term (String c s) (REDACTED ++ String c s').

(** The passes for the terms of a vocabulary, one after the other, each on
    the text the one before it left. *)
Inductive RedactsAll : list string -> string -> string -> Prop :=
| RedactsAll_nil (s : string) : RedactsAll [] s s
| RedactsAll_cons (term : string) (terms : list string) (s s1 s2 : string) :
    Redacts term s s1 ->
    RedactsAll terms s1 s2 ->
    RedactsAll (term :: terms) s s2.

(** Boolean test for [overlaps]. *)
Fixpoint overlapsb (x y : string) : bool :=
  match x with
  | EmptyString => false
  | String c x' => prefix (String c x') y || overlapsb x' y
  end.

(** Boolean test for [apart]. *)
Definition apartb (term marker : string) : bool :=
  negb (contains term marker) && negb (contains marker term) &&
  negb (overlapsb term marker) && negb (overlapsb marker term).

(** ** Standard output, standard input and the network over a run *)

Definition NL : string := String "010"%char EmptyString.

(** [s * n]. *)
Fixpoint str_mul (s : string) (n : nat) : string :=
  match n with
  | O => EmptyString
  | S n' => s ++ str_mul s n'
  end.

(** A piece of a printed line: text, [str(v)] of an object looked up in a
    dictionary, [str(n)] of an integer. *)
Inductive Piece : Type :=
| Lit (s : string)
| Obj (v : PyVal)
| Int (n : nat).

(** What is written to standard output: by [print(...)], or by
    [input(prompt)] before it reads. *)
Inductive Written : Type :=
| Print (pieces : list Piece)
| Prompt (s : string).

(** How a run ends: it returns, an exception of [PyExc] leaves it, or
    [input] finds the end of standard input ([EOFError]). *)
Inductive Ended (A : Type) : Type :=
| Done (a : A)
| Failed (e : PyExc)
| EndOfInput.
Arguments Done {A} a.
Arguments Failed {A} e.
Arguments EndOfInput {A}.

Record Run (A : Type) : Type := {
  ended : Ended A;
  posted : list Request;
  written : list Written }.
Arguments ended {A} r.
Arguments posted {A} r.
Arguments written {A} r.

(** The collaborator over a run: what comes back for a request, given how
    many requests were posted before it. *)
Definition World : Type := nat -> Request -> ApiReply.

(** A piece of program: from the number of requests posted so far to what
    it does. *)
Definition IO (A : Type) : Type := nat -> Run A.

Definition io_ret {A : Type} (a : A) : IO A :=
  fun _ => {| ended := Done a; posted := []; written := [] |}.

Definition io_bind {A B : Type} (c : IO A) (k : A -> IO B) : IO B :=
  fun n =>
    let r := c n in
    match ended r with
    | Done a =>
        let r' := k a (List.length (posted r) + n) in
        {| ended := ended r';
           posted := (posted r ++ posted r')%list;
           written := (written r ++ written r')%list |}
    | Failed e => {| ended := Failed e; posted := posted r; written := written r |}
    | EndOfInput => {| ended := EndOfInput; posted := posted r; written := written r |}
    end.

Declare Scope io_scope.
Delimit Scope io_scope with io.
Bind Scope io_scope with IO.

Notation "x <- c ;; k" := (io_bind c (fun x => k))
  (at level 61, c at next level, right associativity) : io_scope.
Notation "c ;; k" := (io_bind c (fun _ => k))
  (at level 61, right associativity) : io_scope.

(** [print(...)] of text that standard output can encode. *)
Definition print (pieces : list Piece) : IO unit :=
  fun _ => {| ended := Done tt; posted := []; written := [Print pieces] |}.

(** A value computed without output, or the exception it raises. *)
Definition lift {A : Type} (c : Outcome A) : IO A :=
  fun _ => {| ended := match c with Returned a => Done a | Raised e => Failed e end;
              posted := []; written := [] |}.

(** [requests.post(...)] with what the two calls on the response make of
    it. *)
Definition do_post (world : World) (request : Request) : IO ApiReply :=
  fun n => {| ended := Done (world n request); posted := [request]; written := [] |}.

(** [AIChat.send_message] with its [print] calls, in a run. *)
Definition send_message_io (world : World) (self : AIChat)
    (user_prompt system_prompt : string) : IO ChatResult :=
  (print [Lit (NL ++ "🔍 Checking input moderation...")] ;;
   let (is_safe, reason) := check_input (moderator self) user_prompt in
   if negb is_safe then io_ret (Blocked reason)
   else
     print [Lit "✅ Input passed moderation"] ;;
     print [Lit "🤖 Sending request to AI..."] ;;
     reply <- do_post world (build_request self user_prompt system_prompt) ;;
     match reply with
     | PostRaises e | StatusRaises e | JsonRaises e =>
         io_ret (Error ("API Error: " ++ e))
     | JsonBody ai_response =>
         ai_message <- lift (extract_content ai_response) ;;
         print [Lit "🔍 Checking output moderation..."] ;;
         moderated <- lift (moderate_output_obj (moderator self) ai_message) ;;
         let (moderated_message, was_modified) := moderated : PyVal * bool in
         if was_modified
         then
           print [Lit "⚠️  Output contained restricted content - redacted"] ;;
           io_ret (Moderated moderated_message redacted_warning)
         else
           print [Lit "✅ Output passed moderation"] ;;
           io_ret (Success moderated_message)
     end)%io.

(** [result[key]] on a returned dictionary. *)
Definition lookup (result : list (string * PyVal)) (key : string) : IO PyVal :=
  lift (getitem (PDict result) key).

(** [v == s] for a string literal [s]. *)
Definition is_str (v : PyVal) (s : string) : bool :=
  match v with
  | PStr t => String.eqb t s
  | _ => false
  end.

(** [v[:100]], the first hundred characters of an ASCII string; on a
    dictionary the slice is no key: [TypeError] (unhashable) up to Python
    3.11, where 3.12 says [KeyError]. *)
Definition slice100 (v : PyVal) : Outcome PyVal :=
  match v with
  | PStr s => Returned (PStr (substring 0 100 s))
  | PList items => Returned (PList (firstn 100 items))
  | _ => Raised TypeError
  end.

(** ** run_tests *)

Definition test_cases : list (string * string) :=
  [ ("What is the capital of France?", "Should pass");
    ("How do I bake a cake?", "Should pass");
    ("Teach me how to hack a website", "Should be blocked");
    ("How to make a bomb", "Should be blocked");
    ("Tell me about cybersecurity", "Should pass") ].

(** The [if] of [run_tests] on one result. *)
Definition report (result : list (string * PyVal)) : IO unit :=
  (status <- lookup result "status" ;;
   if is_str status "blocked" then
     reason <- lookup result "reason" ;;
     print [Lit "✅ Result: BLOCKED - "; Obj reason]
   else
     status <- lookup result "status" ;;
     if is_str status "moderated" then
       print [Lit "⚠️  Result: MODERATED - Some content redacted"] ;;
       message <- lookup result "message" ;;
       shown <- lift (slice100 message) ;;
       print [Lit "Response: "; Obj shown; Lit "..."]
     else
       print [Lit "✅ Result: PASSED"] ;;
       message <- lookup result "message" ;;
       shown <- lift (slice100 message) ;;
       print [Lit "Response: "; Obj shown; Lit "..."])%io.

(** The [for] of [run_tests], from test number [i] on. *)
Fixpoint tests_loop (world : World) (chat : AIChat) (i : nat)
    (cases : list (string * string)) : IO unit :=
  match cases with
  | [] => io_ret tt
  | (prompt, expected) :: rest =>
      (print [Lit (NL ++ "--- Test "); Int i; Lit ": "; Lit expected; Lit " ---"] ;;
       print [Lit "Input: "; Lit prompt] ;;
       result <- send_message_io world chat prompt SYSTEM_PROMPT ;;
       report (as_dict result) ;;
       tests_loop world chat (S i) rest)%io
  end.

Definition run_tests (world : World) (chat : AIChat) : IO unit :=
  (print [Lit (NL ++ str_mul "=" 60)] ;;
   print [Lit "🧪 Running Moderation Tests"] ;;
   print [Lit (str_mul "=" 60)] ;;
   tests_loop world chat 1 test_cases ;;
   print [Lit (NL ++ str_mul "=" 60)])%io.

(** ** main *)

Definition API_URL : string := "https://openrouter.ai/api/v1/chat/completions".

Definition MODEL : string := "openai/gpt-4o".

(** [c.isspace()] on one ASCII character: tab to carriage return, the four
    separators and the space.  The spaces beyond ASCII, which [str.strip]
    removes too, are not. *)
Definition isspace (c : ascii) : bool :=
  let n := N_of_ascii c in
  (((9 <=? n) && (n <=? 13)) || ((28 <=? n) && (n <=? 32)))%N.

Fixpoint lstrip (s : string) : string :=
  match s with
  | EmptyString => EmptyString
  | String c s' => if isspace c then lstrip s' else s
  end.

Fixpoint rstrip (s : string) : string :=
  match s with
  | EmptyString => EmptyString
  | String c s' =>
      match rstrip s' with
      | EmptyString => if isspace c then EmptyString else String c EmptyString
      | String c' r => String c (String c' r)
      end
  end.

(** [s.strip()] for an ASCII [s]. *)
Definition strip (s : string) : string := rstrip (lstrip s).

(** The [if] of [main] that shows one result. *)
Definition display (result : list (string * PyVal)) : IO unit :=
  (print [Lit (NL ++ str_mul "=" 60)] ;;
   (status <- lookup result "status" ;;
    if is_str status "blocked" then
      message <- lookup result "message" ;;
      print [Lit "🚫 BLOCKED: "; Obj message] ;;
      reason <- lookup result "reason" ;;
      print [Lit "   Reason: "; Obj reason]
    else
      status <- lookup result "status" ;;
      if is_str status "moderated" then
        message <- lookup result "message" ;;
        print [Lit "⚠️  AI (Moderated): "; Obj message] ;;
        warning <- lookup result "warning" ;;
        print [Lit "   Warning: "; Obj warning]
      else
        status <- lookup result "status" ;;
        if is_str status "success" then
          message <- lookup result "message" ;;
          print [Lit "🤖 AI: "; Obj message]
        else
          message <- lookup result "message" ;;
          print [Lit "❌ ERROR: "; Obj message]) ;;
   print [Lit (str_mul "=" 60)])%io.

(** The prompt that [input] writes before it reads a line. *)
Definition ask : IO unit :=
  fun _ => {| ended := Done tt; posted := [];
              written := [Prompt (NL ++ "💬 You: ")] |}.

(** The [while True] of [main] on the lines that standard input still
    holds; [input] raises [EOFError] when there is none. *)
Fixpoint main_loop (world : World) (chat : AIChat) (stdin : list string) : IO unit :=
  match stdin with
  | [] =>
      fun _ => {| ended := EndOfInput; posted := [];
                  written := [Prompt (NL ++ "💬 You: ")] |}
  | line :: rest =>
      (ask ;;
       let user_input := strip line in
       if String.eqb user_input "" then
         print [Lit "⚠️  Please enter a message"] ;;
         main_loop world chat rest
       else if String.eqb (lower user_input) "exit" then
         print [Lit (NL ++ "👋 Goodbye!")]
       else if String.eqb (lower user_input) "test" then
         run_tests world chat ;;
         main_loop world chat rest
       else
         result <- send_message_io world chat user_input SYSTEM_PROMPT ;;
         display (as_dict result) ;;
         main_loop world chat rest)%io
  end.

(** [main], for the key read from the configuration. *)
Definition main (world : World) (API_KEY : string) (stdin : list string) : IO unit :=
  (print [Lit (str_mul "=" 60)] ;;
   print [Lit "🤖 AI Chat with Content Moderation"] ;;
   print [Lit (str_mul "=" 60)] ;;
   print [Lit (NL ++ "This chatbot includes moderation to ensure safe interactions.")] ;;
   print [Lit ("Type 'exit' to quit, 'test' to run moderation tests." ++ NL)] ;;
   main_loop world (AIChat_init API_KEY API_URL MODEL) stdin)%io.

(** ** Vocabulary for statements about runs *)

(** A piece of program that posts nothing and returns. *)
Definition silent {A : Type} (c : IO A) (a : A) : Prop :=
  forall n, ended (c n) = Done a /\ posted (c n) = [].

(** The end of a run that is one call. *)
Definition as_ended {A : Type} (o : Outcome A) : Ended A :=
  match o with
  | Returned a => Done a
  | Raised e => Failed e
  end.

(** A piece of program that posts nothing. *)
Definition posts_nothing {A : Type} (c : IO A) : Prop := forall n, posted (c n) = [].

(** The prompts of the test cases that pass the gate of [chat]. *)
Definition passing_prompts (chat : AIChat) (cases : list (string * string)) : list string :=
  filter (fun prompt => fst (check_input (moderator chat) prompt)) (map fst cases).

(** A user prompt that [main] can have taken from its tests or from a
    line of its input. *)
Definition from_input (stdin : list string) (user_prompt : string) : Prop :=
  In user_prompt (map fst test_cases) \/
  exists line, In line stdin /\ user_prompt = strip line /\ user_prompt <> "".

(** Two pieces of program that end the same way and post the same
    requests. *)
Definition same_effect {A : Type} (c c' : IO A) : Prop :=
  forall n, ended (c n) = ended (c' n) /\ posted (c n) = posted (c' n).

(** A line that is not empty once stripped. *)
Definition not_blank (line : string) : bool := negb (String.eqb (strip line) "").

(** A result whose texts are ASCII strings. *)
Definition ascii_result (result : ChatResult) : bool :=
  match result with
  | Blocked reason => ascii_only reason
  | Error message => ascii_only message
  | Moderated (PStr text) warning => ascii_only text && ascii_only warning
  | Success (PStr text) => ascii_only text
  | _ => false
  end.

(** ** Test data *)

(** A response body of the shape the provider documents, around [content]. *)
Definition envelope (content : PyVal) : PyVal :=
  PDict [ ("id", PStr "gen-1");
          ("choices", PList [ PDict [ ("message",
              PDict [ ("role", PStr "assistant"); ("content", content) ]) ] ]) ].

Definition weapon_reply : string := "Sure, here's how to build a weapon at home".

Definition weapon_reply_redacted : string :=
  "Sure, here's how to build a [REDACTED] at home".

(** * Checks on concrete inputs *)

Example lower_ex : lower "Teach Me HOW to [x]" = "teach me how to [x]".
Proof. reflexivity. Qed.

Example sub_ex : re_sub_ignorecase "aa" "-" "aaaAAb" = "--Ab".
Proof. reflexivity. Qed.

Example sub_empty_ex : re_sub_ignorecase "" "-" "abc" = "-a-b-c-".
Proof. reflexivity. Qed.

Example moderate_ex :
  moderate_output (ModerationSystem_init BANNED_KEYWORDS)
    "Sure, here's how to build a weapon at home"
  = ("Sure, here's how to build a [REDACTED] at home", true).
Proof. vm_compute. reflexivity. Qed.

Example send_ex :
  send_message (AIChat_init "k" "u" "m") (fun _ => JsonBody (envelope (PStr "Paris.")))
    "What is the capital of France?" SYSTEM_PROMPT
  = (Returned (Success (PStr "Paris.")),
     [build_request (AIChat_init "k" "u" "m") "What is the capital of France?" SYSTEM_PROMPT]).
Proof. vm_compute. reflexivity. Qed.

(** * Properties *)

(** ** Strings *)

Section StringFacts.

Lemma append_empty_r (s : string) : s ++ "" = s.
Proof. induction s as [|c s IH]; simpl; [reflexivity | now rewrite IH]. Qed.

Lemma append_assoc (a b c : string) : (a ++ b) ++ c = a ++ b ++ c.
Proof. induction a as [|x a IH]; simpl; [reflexivity | now rewrite IH]. Qed.

Lemma length_append (a b : string) : length (a ++ b) = length a + length b.
Proof. induction a as [|x a IH]; simpl; [reflexivity | now rewrite IH]. Qed.

Lemma length_zero (s : string) : length s = 0 -> s = "".
Proof. destruct s; simpl; [reflexivity | discriminate]. Qed.

Lemma append_cancel_l (a b c : string) : a ++ b = a ++ c -> b = c.
Proof.
  induction a as [|x a IH]; simpl; intros H; [exact H |].
  injection H as H. auto.
Qed.

(** Two ways of cutting one string: one cut comes first. *)
Lemma append_eq_append (a b c d : string) :
  a ++ b = c ++ d ->
  (exists z, c = a ++ z /\ b = z ++ d) \/ (exists z, a = c ++ z /\ d = z ++ b).
Proof.
  revert c; induction a as [|x a IH]; intros c H; simpl in H.
  - left. exists c. auto.
  - destruct c as [|y c]; simpl in H.
    + right. exists (String x a). auto.
    + injection H as -> H.
      destruct (IH _ H) as [[z [-> ->]] | [z [-> ->]]].
      * left. exists z. auto.
      * right. exists z. auto.
Qed.

(** Same, when the lengths say which cut comes first. *)
Lemma append_eq_append_le (a b c d : string) :
  a ++ b = c ++ d -> length a <= length c ->
  exists z, c = a ++ z /\ b = z ++ d.
Proof.
  intros H Hle.
  destruct (append_eq_append _ _ _ _ H) as [Hl | [z [-> ->]]]; [exact Hl |].
  rewrite length_append in Hle.
  assert (z = "") as -> by (apply length_zero; lia).
  exists "". rewrite !append_empty_r. split; reflexivity.
Qed.

Lemma append_eq_same_length (a b c d : string) :
  a ++ b = c ++ d -> length a = length c -> a = c /\ b = d.
Proof.
  intros H Hlen.
  destruct (append_eq_append_le _ _ _ _ H) as [z [-> ->]]; [lia |].
  rewrite length_append in Hlen.
  assert (z = "") as -> by (apply length_zero; lia).
  now rewrite append_empty_r.
Qed.

Lemma lower_ascii_idem (c : ascii) : lower_ascii (lower_ascii c) = lower_ascii c.
Proof. destruct c as [[] [] [] [] [] [] [] []]; reflexivity. Qed.

Lemma lower_idem (s : string) : lower (lower s) = lower s.
Proof.
  induction s as [|c s IH]; simpl; [reflexivity |].
  now rewrite lower_ascii_idem, IH.
Qed.

Lemma lower_append (a b : string) : lower (a ++ b) = lower a ++ lower b.
Proof. induction a as [|x a IH]; simpl; [reflexivity | now rewrite IH]. Qed.

Lemma lower_length (s : string) : length (lower s) = length s.
Proof. induction s as [|c s IH]; simpl; [reflexivity | now rewrite IH]. Qed.

Lemma lower_eq_length (a b : string) : lower a = lower b -> length a = length b.
Proof. intros H. rewrite <- (lower_length a), H. apply lower_length. Qed.

(** A cut of [lower s] is a cut of [s]. *)
Lemma lower_eq_append (s a b : string) :
  lower s = a ++ b -> exists s1 s2, s = s1 ++ s2 /\ lower s1 = a /\ lower s2 = b.
Proof.
  revert s; induction a as [|x a IH]; intros s H; simpl in H.
  - exists "", s. auto.
  - destruct s as [|c s]; simpl in H; [discriminate |].
    injection H as Hc H.
    destruct (IH _ H) as [s1 [s2 [-> [<- <-]]]].
    exists (String c s1), s2. simpl. now rewrite Hc.
Qed.

Lemma prefix_empty (s : string) : prefix "" s = true.
Proof. destruct s; reflexivity. Qed.

Lemma prefix_cons (a b : ascii) (u s : string) :
  prefix (String a u) (String b s) = Ascii.eqb a b && prefix u s.
Proof.
  simpl. destruct (ascii_dec a b) as [->|Hne].
  - now rewrite Ascii.eqb_refl.
  - apply Ascii.eqb_neq in Hne. now rewrite Hne.
Qed.

Lemma prefix_spec (u s : string) :
  prefix u s = true <-> exists r, s = u ++ r.
Proof.
  revert s; induction u as [|a u IH]; intros s.
  - rewrite prefix_empty. split; [exists s; reflexivity | reflexivity].
  - destruct s as [|b s].
    + simpl. split; [discriminate | intros [r H]; discriminate].
    + rewrite prefix_cons, andb_true_iff, Ascii.eqb_eq, IH. split.
      * intros [-> [r ->]]. now exists r.
      * intros [r H]. injection H as -> ->. split; [reflexivity | now exists r].
Qed.

Lemma contains_nil (u : string) : contains u "" = prefix u "".
Proof. simpl. apply orb_false_r. Qed.

Lemma contains_cons (u : string) (c : ascii) (s : string) :
  contains u (String c s) = prefix u (String c s) || contains u s.
Proof. reflexivity. Qed.

Lemma contains_spec (u s : string) : contains u s = true <-> occurs_in u s.
Proof.
  unfold occurs_in. induction s as [|c s IH].
  - rewrite contains_nil, prefix_spec. split.
    + intros [r H]. now exists "", r.
    + intros [[|x b] [a H]]; [now exists a | discriminate].
  - rewrite contains_cons, orb_true_iff, prefix_spec, IH. split.
    + intros [[r H] | [b [a ->]]]; [now exists "", r | now exists (String c b), a].
    + intros [[|x b] [a H]]; [left; now exists a |].
      injection H as -> ->. right. now exists b, a.
Qed.

Lemma contains_false (u s : string) : contains u s = false <-> ~ occurs_in u s.
Proof. rewrite <- contains_spec. now destruct (contains u s). Qed.

Lemma contains_empty (s : string) : contains "" s = true.
Proof. destruct s; reflexivity. Qed.

Lemma occurs_in_dec (u s : string) : {occurs_in u s} + {~ occurs_in u s}.
Proof.
  destruct (contains u s) eqn:E; [left; now apply contains_spec | right; now apply contains_false].
Qed.

Lemma occurs_in_left (u a b : string) : occurs_in u a -> occurs_in u (a ++ b).
Proof.
  intros [p [q ->]]. exists p, (q ++ b). now rewrite !append_assoc.
Qed.

Lemma occurs_in_right (u a b : string) : occurs_in u b -> occurs_in u (a ++ b).
Proof.
  intros [p [q ->]]. exists (a ++ p), q. now rewrite !append_assoc.
Qed.

Lemma overlapsb_spec (x y : string) : overlapsb x y = true <-> overlaps x y.
Proof.
  unfold overlaps. induction x as [|c x IH].
  - simpl. split; [discriminate |].
    intros [u [[|? ?] [r [Hu [H _]]]]]; simpl in H; [now subst | discriminate].
  - cbn [overlapsb]. rewrite orb_true_iff, IH, prefix_spec. split.
    + intros [[r ->] | [u [l [r [Hu [-> ->]]]]]].
      * exists (String c x), "", r.
        split; [discriminate | split; reflexivity].
      * exists u, (String c l), r. auto.
    + intros [u [[|c' l] [r [Hu [H ->]]]]]; simpl in H.
      * subst u. left. now exists r.
      * injection H as -> ->. right. now exists u, l, r.
Qed.

Lemma overlapsb_false (x y : string) : overlapsb x y = false <-> ~ overlaps x y.
Proof. rewrite <- overlapsb_spec. now destruct (overlapsb x y). Qed.

End StringFacts.

(** ** The input gate *)

Section CheckInput.

Variable self : ModerationSystem.
Variable text : string.

Let hit (keyword : string) : bool := contains keyword (lower text).

(** The first loop is a search for the first keyword found in the text. *)
Lemma first_loop (keywords : list string) :
  for_return keywords (fun keyword =>
    if contains keyword (lower text)
    then Some (false, prohibited_reason keyword) else None)
  = option_map (fun keyword => (false, prohibited_reason keyword)) (find hit keywords).
Proof.
  induction keywords as [|k ks IH]; simpl; [reflexivity |].
  unfold hit at 1. destruct (contains k (lower text)); [reflexivity | exact IH].
Qed.

(** Once the first loop has found nothing, the inner loop of the second
    finds nothing either. *)
Lemma inner_loop_silent (keywords : list string) (r : bool * string) :
  find hit keywords = None ->
  for_return keywords (fun keyword =>
    if contains keyword (lower text) then Some r else None) = None.
Proof.
  induction keywords as [|k ks IH]; simpl; [reflexivity |].
  unfold hit at 1. destruct (contains k (lower text)); [discriminate | exact IH].
Qed.

Lemma second_loop_silent (patterns : list string) :
  find hit (banned_keywords self) = None ->
  for_return patterns (fun pattern =>
    if contains pattern (lower text)
    then for_return (banned_keywords self) (fun keyword =>
           if contains keyword (lower text)
           then Some (false, harmful_reason) else None)
    else None) = None.
Proof.
  intros Hnone. rewrite inner_loop_silent by exact Hnone.
  induction patterns as [|p ps IH]; simpl; [reflexivity |].
  destruct (contains p (lower text)); exact IH.
Qed.

Lemma check_input_unfold :
  check_input self text =
  match find hit (banned_keywords self) with
  | Some keyword => (false, prohibited_reason keyword)
  | None => (true, passed_reason)
  end.
Proof.
  unfold check_input. cbv zeta. rewrite first_loop.
  destruct (find hit (banned_keywords self)) as [k|] eqn:E; cbn [option_map];
    [reflexivity |].
  rewrite second_loop_silent by exact E. reflexivity.
Qed.

End CheckInput.

(** The first element that satisfies [f] splits the list. *)
Lemma find_first {A : Type} (f : A -> bool) (l : list A) (x : A) :
  find f l = Some x ->
  exists l1 l2, l = (l1 ++ x :: l2)%list /\ f x = true /\
                forall y, In y l1 -> f y = false.
Proof.
  induction l as [|a l IH]; simpl; [discriminate |].
  destruct (f a) eqn:E.
  - intros [= ->]. exists [], l. simpl. intuition.
  - intros H. destruct (IH H) as [l1 [l2 [-> [Hx Hl1]]]].
    exists (a :: l1), l2. simpl. repeat split; auto.
    intros y [<- | Hy]; auto.
Qed.

Lemma find_app_first {A : Type} (f : A -> bool) (l1 l2 : list A) (x : A) :
  (forall y, In y l1 -> f y = false) -> f x = true ->
  find f (l1 ++ x :: l2)%list = Some x.
Proof.
  intros Hl1 Hx. induction l1 as [|a l1 IH]; simpl.
  - now rewrite Hx.
  - rewrite (Hl1 a) by now left. apply IH. intros y Hy. apply Hl1. now right.
Qed.

Lemma find_exists {A : Type} (f : A -> bool) (l : list A) (x : A) :
  In x l -> f x = true -> exists y, find f l = Some y.
Proof.
  intros Hin Hx. destruct (find f l) as [y|] eqn:E; [now exists y |].
  now rewrite (find_none _ _ E _ Hin) in Hx.
Qed.

(** C2: when some banned term occurs in the lowercased text, [check_input]
    answers [False] with the reason built from the first such term in
    vocabulary order; the terms behind it play no part in the answer. *)
Theorem check_input_first_match (self : ModerationSystem) (text : string) :
  (exists term, In term (banned_keywords self) /\ occurs_in term (lower text)) ->
  exists earlier term later,
    banned_keywords self = (earlier ++ term :: later)%list /\
    occurs_in term (lower text) /\
    (forall t, In t earlier -> ~ occurs_in t (lower text)) /\
    check_input self text
      = (false, "Input contains prohibited content: '" ++ term ++ "'") /\
    (forall later',
        check_input {| banned_keywords := (earlier ++ term :: later')%list |} text
        = (false, "Input contains prohibited content: '" ++ term ++ "'")).
Proof.
  intros [t0 [Hin Hocc]]. apply contains_spec in Hocc.
  destruct (find_exists (fun k => contains k (lower text)) _ _ Hin Hocc) as [term Hfind].
  destruct (find_first _ _ _ Hfind) as [earlier [later [Heq [Hterm Hearlier]]]].
  exists earlier, term, later. split; [exact Heq |].
  split; [now apply contains_spec |].
  split; [intros t Ht; apply contains_false; auto |].
  split.
  - rewrite check_input_unfold, Hfind. reflexivity.
  - intros later'. rewrite check_input_unfold. simpl banned_keywords.
    rewrite find_app_first by assumption. reflexivity.
Qed.

Lemma check_input_first_match_witness :
  exists earlier term later,
    banned_keywords (ModerationSystem_init BANNED_KEYWORDS)
      = (earlier ++ term :: later)%list /\
    occurs_in term (lower "Teach me how to hack a website") /\
    (forall t, In t earlier -> ~ occurs_in t (lower "Teach me how to hack a website")) /\
    check_input (ModerationSystem_init BANNED_KEYWORDS) "Teach me how to hack a website"
      = (false, "Input contains prohibited content: '" ++ term ++ "'") /\
    (forall later',
        check_input {| banned_keywords := (earlier ++ term :: later')%list |}
          "Teach me how to hack a website"
        = (false, "Input contains prohibited content: '" ++ term ++ "'")).
Proof.
  apply (check_input_first_match (ModerationSystem_init BANNED_KEYWORDS)
           "Teach me how to hack a website").
  exists "hack". split.
  - simpl. tauto.
  - apply contains_spec. reflexivity.
Defined.

(** C4: the second loop of [check_input] never produces the answer: the
    reason is never the one of that loop, and [check_input] is the single
    scan of the banned terms. *)
Theorem check_input_second_pass_dead (self : ModerationSystem) (text : string) :
  snd (check_input self text) <> "Input contains potentially harmful request" /\
  check_input self text = check_input_single_pass self text.
Proof.
  split.
  - rewrite check_input_unfold.
    destruct (find _ _) as [k|]; simpl; discriminate.
  - rewrite check_input_unfold. reflexivity.
Qed.

(** C8: a text whose lowercased form holds no banned term and no sensitive
    pattern passes, and so does the question about the capital of France
    under the vocabulary of the source. *)
Theorem check_input_clean_passes :
  (forall (self : ModerationSystem) (text : string),
      (forall term, In term (banned_keywords self) -> ~ occurs_in term (lower text)) ->
      (forall pattern, In pattern SENSITIVE_PATTERNS -> ~ occurs_in pattern (lower text)) ->
      check_input self text = (true, "Input passed moderation")) /\
  check_input (ModerationSystem_init BANNED_KEYWORDS) "What is the capital of France?"
  = (true, "Input passed moderation").
Proof.
  split; [| reflexivity].
  intros self text Hterms _.
  rewrite check_input_unfold.
  destruct (find _ _) as [k|] eqn:E; [| reflexivity].
  apply find_some in E. destruct E as [Hin Hk].
  apply contains_spec in Hk. now apply Hterms in Hk.
Qed.

Lemma check_input_clean_passes_witness :
  check_input (ModerationSystem_init BANNED_KEYWORDS) "Tell me about cybersecurity"
  = (true, "Input passed moderation").
Proof.
  apply (proj1 check_input_clean_passes (ModerationSystem_init BANNED_KEYWORDS));
    intros term Hin; apply contains_false; simpl in Hin;
    repeat (destruct Hin as [<- | Hin]; [reflexivity |]); contradiction.
Defined.

(** C10: a term of the sequence given to the constructor that is empty
    once lowercased makes [check_input] answer [False] on every text, the
    empty one included. *)
Theorem empty_term_blocks_every_input (raw : list string) (text : string) :
  (exists term, In term raw /\ lower term = "") ->
  fst (check_input (ModerationSystem_init raw) text) = false /\
  fst (check_input (ModerationSystem_init raw) "") = false.
Proof.
  intros [term [Hin Hempty]].
  assert (Hblocked : forall t, fst (check_input (ModerationSystem_init raw) t) = false).
  { intros t. rewrite check_input_unfold.
    destruct (find_exists (fun k => contains k (lower t))
                (banned_keywords (ModerationSystem_init raw)) "") as [k Hk].
    - simpl. rewrite <- Hempty. now apply in_map.
    - apply contains_empty.
    - now rewrite Hk. }
  split; apply Hblocked.
Qed.

Lemma empty_term_blocks_every_input_witness :
  fst (check_input (ModerationSystem_init ["kill"; ""]) "What is the capital of France?")
  = false /\
  fst (check_input (ModerationSystem_init ["kill"; ""]) "") = false.
Proof.
  apply (empty_term_blocks_every_input ["kill"; ""] "What is the capital of France?").
  exists "". split; [simpl; tauto | reflexivity].
Defined.

(** ** Substitution *)

Section Substitution.

Lemma imatch_prefix (pat s : string) : imatch pat s = prefix (lower pat) (lower s).
Proof.
  revert s; induction pat as [|p pat IH]; intros s.
  - simpl. now rewrite prefix_empty.
  - destruct s as [|c s]; [reflexivity |].
    cbn [imatch lower]. now rewrite prefix_cons, IH.
Qed.

Lemma imatch_spec (pat s : string) :
  imatch pat s = true <-> exists m r, s = m ++ r /\ lower m = lower pat.
Proof.
  rewrite imatch_prefix, prefix_spec. split.
  - intros [r H]. destruct (lower_eq_append _ _ _ H) as [m [r' [-> [Hm _]]]].
    now exists m, r'.
  - intros [m [r [-> Hm]]]. exists (lower r). now rewrite lower_append, Hm.
Qed.

Lemma drop_length_le (n : nat) (s : string) : length (drop n s) <= length s.
Proof.
  revert s; induction n as [|n IH]; intros [|c s]; simpl; try lia.
  specialize (IH s); lia.
Qed.

Lemma drop_append (m r : string) : drop (length m) (m ++ r) = r.
Proof. induction m as [|c m IH]; simpl; [now destruct r | exact IH]. Qed.

Lemma occurs_in_length (u s : string) : occurs_in u s -> length u <= length s.
Proof. intros [p [q ->]]. rewrite !length_append. lia. Qed.

Lemma re_sub_match (p : ascii) (pat' repl : string) (c : ascii) (s' : string) :
  imatch (String p pat') (String c s') = true ->
  re_sub_ignorecase (String p pat') repl (String c s')
  = repl ++ re_sub_ignorecase (String p pat') repl (drop (length pat') s').
Proof. intros H. simp re_sub_ignorecase. rewrite H. reflexivity. Qed.

Lemma re_sub_skip (p : ascii) (pat' repl : string) (c : ascii) (s' : string) :
  imatch (String p pat') (String c s') = false ->
  re_sub_ignorecase (String p pat') repl (String c s')
  = String c (re_sub_ignorecase (String p pat') repl s').
Proof. intros H. simp re_sub_ignorecase. rewrite H. reflexivity. Qed.

(** A character that starts no match goes through the pass. *)
Lemma Redacts_skip (term : string) (c : ascii) (s out : string) :
  imatch term (String c s) = false ->
  Redacts term s out ->
  Redacts term (String c s) (String c out).
Proof.
  intros Hno Hred.
  destruct Hred as [s Hclean | kept matched rest rest' Hne Hm Hleft Hrest
                   | Hempty | c' s s' Hempty _];
    try (rewrite Hempty in Hno; discriminate Hno).
  - apply Redacts_kept. unfold occurs_ci in *. intros Hocc.
    apply contains_spec in Hocc. cbn [lower] in Hocc.
    rewrite contains_cons in Hocc. apply orb_true_iff in Hocc.
    destruct Hocc as [Hpre | Hin].
    + change (String (lower_ascii c) (lower s)) with (lower (String c s)) in Hpre.
      rewrite <- imatch_prefix in Hpre. congruence.
    + apply contains_spec in Hin. contradiction.
  - change (Redacts term (String c kept ++ matched ++ rest)
              (String c kept ++ REDACTED ++ rest')).
    apply Redacts_occurrence; try assumption.
    intros [|c0 p0] m q Heq Hlow.
    + exfalso. simpl in Heq.
      assert (imatch term (String c (kept ++ matched ++ rest)) = true) as Hyes.
      { apply imatch_spec. exists m, q. split; [exact Heq | exact Hlow]. }
      congruence.
    + simpl in Heq. injection Heq as _ Heq. simpl.
      specialize (Hleft _ _ _ Heq Hlow). lia.
Qed.

(** [re_sub_ignorecase] does the pass that [Redacts] describes. *)
Lemma re_sub_Redacts (term s : string) :
  Redacts term s (re_sub_ignorecase term REDACTED s).
Proof.
  apply (re_sub_ignorecase_elim
           (fun pat repl s out => repl = REDACTED -> Redacts pat s out));
    [ | | | | | reflexivity ].
  - intros repl ->. now apply Redacts_empty_end.
  - intros repl c s' IH ->. apply Redacts_empty_step; auto.
  - intros p pat' repl _. apply Redacts_kept.
    intros H. apply occurs_in_length in H. simpl in H. lia.
  - intros p pat' repl c s' IH Hm ->.
    apply imatch_spec in Hm. destruct Hm as [m [r [Heq Hlow]]].
    pose proof (lower_eq_length _ _ Hlow) as Hlen.
    destruct m as [|c0 m]; [discriminate |].
    simpl in Heq, Hlen. injection Heq as <- ->. injection Hlen as Hlen.
    rewrite <- Hlen, drop_append in *.
    change (Redacts (String p pat') ("" ++ String c m ++ r)
              ("" ++ REDACTED ++ re_sub_ignorecase (String p pat') REDACTED r)).
    apply Redacts_occurrence; auto; [discriminate |].
    intros; simpl; lia.
  - intros p pat' repl c s' IH Hm ->. apply Redacts_skip; auto.
Qed.

Lemma occurrence_occurs (term kept matched rest : string) :
  lower matched = lower term -> occurs_ci term (kept ++ matched ++ rest).
Proof.
  intros H. exists (lower kept), (lower rest). now rewrite !lower_append, H.
Qed.

(** [Redacts] leaves no choice: a text has one redacted form. *)
Lemma Redacts_functional (term s out1 out2 : string) :
  Redacts term s out1 -> Redacts term s out2 -> out1 = out2.
Proof.
  intros H1. revert out2.
  induction H1 as [s Hclean | kept matched rest rest' Hne Hm Hleft Hrest IH
                  | Hempty | c s s' Hempty Hrest IH];
    intros out2 H2.
  - inversion H2 as [s0 Hclean2 | kept2 matched2 rest2 rest2' Hne2 Hm2 Hleft2 Hrest2
                    | Hempty2 | c2 s2 s2' Hempty2 Hrest2]; subst.
    + reflexivity.
    + exfalso. apply Hclean. now apply occurrence_occurs.
    + exfalso. apply Hclean. exists "", "". reflexivity.
    + exfalso. apply Hclean. exists "", (lower (String c2 s2)). reflexivity.
  - inversion H2 as [s0 Hclean2 | kept2 matched2 rest2 rest2' Hne2 Hm2 Hleft2 Hrest2 Heq
                    | Hempty2 | c2 s2 s2' Hempty2 Hrest2]; subst.
    + exfalso. apply Hclean2. now apply occurrence_occurs.
    + pose proof (Hleft _ _ _ (eq_sym Heq) Hm2) as Hle1.
      pose proof (Hleft2 _ _ _ Heq Hm) as Hle2.
      destruct (append_eq_same_length _ _ _ _ Heq) as [-> Heq']; [lia |].
      destruct (append_eq_same_length _ _ _ _ Heq') as [-> ->].
      { rewrite (lower_eq_length _ _ Hm), (lower_eq_length _ _ Hm2). reflexivity. }
      now rewrite (IH _ Hrest2).
    + congruence.
    + congruence.
  - inversion H2 as [s0 Hclean2 | kept2 matched2 rest2 rest2' Hne2 Hm2 Hleft2 Hrest2 Heq
                    | Hempty2 | c2 s2 s2' Hempty2 Hrest2]; subst.
    + exfalso. apply Hclean2. exists "", "". reflexivity.
    + congruence.
    + reflexivity.
  - inversion H2 as [s0 Hclean2 | kept2 matched2 rest2 rest2' Hne2 Hm2 Hleft2 Hrest2 Heq
                    | Hempty2 | c2 s2 s2' Hempty2 Hrest2]; subst.
    + exfalso. apply Hclean2. exists "", (lower (String c s)). reflexivity.
    + congruence.
    + now rewrite (IH _ Hrest2).
Qed.

Lemma RedactsAll_functional (terms : list string) (s out1 out2 : string) :
  RedactsAll terms s out1 -> RedactsAll terms s out2 -> out1 = out2.
Proof.
  intros H1. revert out2.
  induction H1 as [s | term terms s s1 s2 Hred Hrest IH]; intros out2 H2.
  - now inversion H2.
  - inversion H2 as [| term' terms' s' s1' s2' Hred' Hrest']; subst.
    rewrite (Redacts_functional _ _ _ _ Hred' Hred) in Hrest'.
    now apply IH.
Qed.

(** Each pass multiplies the length by ten at most. *)
Lemma re_sub_length (term s : string) :
  term <> "" ->
  length (re_sub_ignorecase term REDACTED s) <= 10 * length s.
Proof.
  apply (re_sub_ignorecase_elim
           (fun pat repl s out =>
              length repl = 10 -> pat <> "" -> length out <= 10 * length s));
    [ | | | | | reflexivity ].
  - intros repl _ H. now contradiction H.
  - intros repl c s' _ _ H. now contradiction H.
  - intros. simpl. lia.
  - intros p pat' repl c s' IH _ Hrepl Hne.
    specialize (IH Hrepl Hne).
    pose proof (drop_length_le (length pat') s').
    rewrite length_append, Hrepl. simpl length. lia.
  - intros p pat' repl c s' IH _ Hrepl Hne.
    specialize (IH Hrepl Hne). simpl length. lia.
Qed.

End Substitution.

(** ** The output filter *)

Section ModerateOutput.

Lemma redact_keyword_Redacts (keyword s : string) (b : bool) :
  lower keyword = keyword ->
  Redacts keyword s (fst (redact_keyword (s, b) keyword)).
Proof.
  intros Hlow. unfold redact_keyword.
  destruct (contains keyword (lower s)) eqn:E; cbn [fst].
  - apply re_sub_Redacts.
  - apply Redacts_kept. unfold occurs_ci. rewrite Hlow. now apply contains_false.
Qed.

Lemma redact_keyword_flag (keyword s : string) (b : bool) :
  snd (redact_keyword (s, b) keyword) = contains keyword (lower s) || b.
Proof. unfold redact_keyword. now destruct (contains keyword (lower s)). Qed.

Lemma redact_keyword_clean (keyword s : string) (b : bool) :
  contains keyword (lower s) = false -> redact_keyword (s, b) keyword = (s, b).
Proof. intros H. unfold redact_keyword. now rewrite H. Qed.

(** Once set, the flag stays set. *)
Lemma fold_redact_sticky (keywords : list string) (s : string) :
  snd (fold_left redact_keyword keywords (s, true)) = true.
Proof.
  revert s; induction keywords as [|k ks IH]; intros s; [reflexivity |].
  cbn [fold_left]. unfold redact_keyword at 2.
  destruct (contains k (lower s)); apply IH.
Qed.

Lemma fold_redact_clean (keywords : list string) (s : string) (b : bool) :
  (forall k, In k keywords -> contains k (lower s) = false) ->
  fold_left redact_keyword keywords (s, b) = (s, b).
Proof.
  induction keywords as [|k ks IH]; intros H; [reflexivity |].
  cbn [fold_left]. rewrite redact_keyword_clean by (apply H; now left).
  apply IH. intros k' Hk'. apply H. now right.
Qed.

Lemma fold_redact_flag (keywords : list string) (s : string) (b : bool) :
  (exists k, In k keywords /\ contains k (lower s) = true) ->
  snd (fold_left redact_keyword keywords (s, b)) = true.
Proof.
  revert b; induction keywords as [|k ks IH]; intros b [t [Hin Ht]]; [contradiction |].
  cbn [fold_left]. destruct (contains k (lower s)) eqn:E.
  - unfold redact_keyword at 2. rewrite E. apply fold_redact_sticky.
  - rewrite redact_keyword_clean by exact E. apply IH.
    destruct Hin as [-> | Hin]; [congruence | now exists t].
Qed.

Lemma fold_redact_unmodified (keywords : list string) (s : string) (b : bool) :
  snd (fold_left redact_keyword keywords (s, b)) = false ->
  fold_left redact_keyword keywords (s, b) = (s, false).
Proof.
  revert b; induction keywords as [|k ks IH]; intros b.
  - simpl. now intros ->.
  - cbn [fold_left]. destruct (contains k (lower s)) eqn:E.
    + unfold redact_keyword at 2 4. rewrite E, fold_redact_sticky. discriminate.
    + rewrite redact_keyword_clean by exact E. apply IH.
Qed.

Lemma fold_redact_RedactsAll (keywords : list string) (s : string) (b : bool) :
  (forall k, In k keywords -> lower k = k) ->
  RedactsAll keywords s (fst (fold_left redact_keyword keywords (s, b))).
Proof.
  revert s b; induction keywords as [|k ks IH]; intros s b Hlow.
  - apply RedactsAll_nil.
  - cbn [fold_left].
    destruct (redact_keyword (s, b) k) as [s1 b1] eqn:E.
    apply RedactsAll_cons with (s1 := s1).
    + change s1 with (fst (s1, b1)). rewrite <- E.
      apply redact_keyword_Redacts. apply Hlow. now left.
    + apply IH. intros k' Hk'. apply Hlow. now right.
Qed.

Lemma init_keywords_lower (raw : list string) (k : string) :
  In k (banned_keywords (ModerationSystem_init raw)) -> lower k = k.
Proof.
  simpl. intros H. apply in_map_iff in H. destruct H as [k0 [<- _]].
  apply lower_idem.
Qed.

Lemma fold_redact_length (keywords : list string) (s : string) (b : bool) :
  (forall k, In k keywords -> k <> "") ->
  length (fst (fold_left redact_keyword keywords (s, b)))
  <= 10 ^ List.length keywords * length s.
Proof.
  revert s b; induction keywords as [|k ks IH]; intros s b Hne.
  - simpl. lia.
  - cbn [fold_left List.length].
    destruct (redact_keyword (s, b) k) as [s1 b1] eqn:E.
    assert (Hs1 : length s1 <= 10 * length s).
    { unfold redact_keyword in E. destruct (contains k (lower s)).
      - injection E as <- _. apply re_sub_length. apply Hne. now left.
      - injection E as <- _. lia. }
    assert (Hks : forall k', In k' ks -> k' <> "") by (intros k' Hk'; apply Hne; now right).
    specialize (IH s1 b1 Hks).
    rewrite Nat.pow_succ_r'. nia.
Qed.

End ModerateOutput.

(** The reply about the weapon, under any vocabulary that holds ["weapon"]
    and whose other terms match neither the reply nor its redacted form. *)
Lemma moderate_weapon_reply (keywords : list string) (b : bool) :
  In "weapon" keywords ->
  (forall k, In k keywords -> k <> "weapon" ->
             contains k (lower weapon_reply) = false) ->
  (forall k, In k keywords -> k <> "weapon" ->
             contains k (lower weapon_reply_redacted) = false) ->
  fold_left redact_keyword keywords (weapon_reply, b) = (weapon_reply_redacted, true).
Proof.
  induction keywords as [|k ks IH]; intros Hin Hreply Hredacted; [contradiction |].
  cbn [fold_left]. destruct (string_dec k "weapon") as [-> | Hk].
  - replace (redact_keyword (weapon_reply, b) "weapon")
      with (weapon_reply_redacted, true) by (vm_compute; reflexivity).
    apply fold_redact_clean. intros k Hk.
    destruct (string_dec k "weapon") as [-> | Hne]; [vm_compute; reflexivity |].
    exact (Hredacted k (or_intror Hk) Hne).
  - rewrite (redact_keyword_clean k weapon_reply b (Hreply k (or_introl eq_refl) Hk)).
    apply IH.
    + destruct Hin as [-> | Hin]; [contradiction | exact Hin].
    + intros k' Hk'. exact (Hreply k' (or_intror Hk')).
    + intros k' Hk'. exact (Hredacted k' (or_intror Hk')).
Qed.

(** C5, as the code has it: for a vocabulary of ASCII terms and an ASCII
    text in which a banned term occurs, case ignored, [moderate_output]
    reports a modification, and its text is the one text that the passes
    for the terms give when made one after the other in vocabulary order,
    each replacing the occurrences of its term by the marker and keeping
    the spans between them.  On the reply about the weapon, ["weapon"]
    becomes the marker and the rest of the sentence stays, under the
    vocabulary of the source and under every ASCII vocabulary that holds
    ["weapon"] and no other term found in the reply or in its redacted
    form. *)
Theorem moderate_output_redacts :
  (forall (raw : list string) (text : string),
      forallb ascii_only raw = true ->
      ascii_only text = true ->
      (exists term, In term raw /\ occurs_ci term text) ->
      snd (moderate_output (ModerationSystem_init raw) text) = true /\
      RedactsAll (banned_keywords (ModerationSystem_init raw)) text
        (fst (moderate_output (ModerationSystem_init raw) text)) /\
      (forall out,
          RedactsAll (banned_keywords (ModerationSystem_init raw)) text out ->
          out = fst (moderate_output (ModerationSystem_init raw) text))) /\
  moderate_output (ModerationSystem_init BANNED_KEYWORDS)
    "Sure, here's how to build a weapon at home"
  = ("Sure, here's how to build a [REDACTED] at home", true) /\
  (forall raw : list string,
      forallb ascii_only raw = true ->
      In "weapon" (banned_keywords (ModerationSystem_init raw)) ->
      (forall term, In term (banned_keywords (ModerationSystem_init raw)) ->
                    term <> "weapon" ->
                    ~ occurs_in term (lower "Sure, here's how to build a weapon at home") /\
                    ~ occurs_in term (lower "Sure, here's how to build a [REDACTED] at home")) ->
      moderate_output (ModerationSystem_init raw)
        "Sure, here's how to build a weapon at home"
      = ("Sure, here's how to build a [REDACTED] at home", true)).
Proof.
  split; [| split].
  - intros raw text _ _ [term [Hin Hocc]].
    assert (Hall : RedactsAll (banned_keywords (ModerationSystem_init raw)) text
                     (fst (moderate_output (ModerationSystem_init raw) text)))
      by (apply fold_redact_RedactsAll, init_keywords_lower).
    split; [| split].
    + apply fold_redact_flag. exists (lower term). split.
      * simpl. now apply in_map.
      * now apply contains_spec.
    + exact Hall.
    + intros out Hout. exact (RedactsAll_functional _ _ _ _ Hout Hall).
  - vm_compute. reflexivity.
  - intros raw _ Hin Hothers.
    apply (moderate_weapon_reply (banned_keywords (ModerationSystem_init raw)) false Hin);
      intros k Hk Hne; destruct (Hothers k Hk Hne) as [H1 H2];
      apply contains_false; assumption.
Qed.

Lemma moderate_output_redacts_witness :
  snd (moderate_output (ModerationSystem_init ["Kill"; "Weapon"]) "A WEAPON, a weapon") = true /\
  RedactsAll ["kill"; "weapon"] "A WEAPON, a weapon"
    (fst (moderate_output (ModerationSystem_init ["Kill"; "Weapon"]) "A WEAPON, a weapon")) /\
  (forall out,
      RedactsAll ["kill"; "weapon"] "A WEAPON, a weapon" out ->
      out = fst (moderate_output (ModerationSystem_init ["Kill"; "Weapon"]) "A WEAPON, a weapon")).
Proof.
  apply (proj1 moderate_output_redacts ["Kill"; "Weapon"] "A WEAPON, a weapon");
    [vm_compute; reflexivity | vm_compute; reflexivity |].
  exists "Weapon". split; [simpl; tauto | apply contains_spec; vm_compute; reflexivity].
Defined.

(** C5, as stated, fails on its scenario: a vocabulary that holds
    ["weapon"] and also ["sure"] redacts both words of the reply, so the
    rest of the sentence does not stay. *)
Lemma weapon_reply_other_term_redacted :
  In "weapon" (banned_keywords (ModerationSystem_init ["sure"; "weapon"])) /\
  moderate_output (ModerationSystem_init ["sure"; "weapon"])
    "Sure, here's how to build a weapon at home"
  = ("[REDACTED], here's how to build a [REDACTED] at home", true) /\
  fst (moderate_output (ModerationSystem_init ["sure"; "weapon"])
         "Sure, here's how to build a weapon at home")
  <> "Sure, here's how to build a [REDACTED] at home".
Proof.
  split; [simpl; tauto |]. split; [vm_compute; reflexivity |].
  vm_compute. discriminate.
Qed.

(** C7: when [moderate_output] reports no modification its text is the
    input, so a ["success"] result carries the reply of the model as it
    was in the response. *)
Theorem unmodified_text_is_input :
  (forall (self : ModerationSystem) (text : string),
      snd (moderate_output self text) = false ->
      fst (moderate_output self text) = text) /\
  (forall (self : AIChat) (post : Request -> ApiReply)
          (user_prompt system_prompt : string) (message : PyVal),
      fst (send_message self post user_prompt system_prompt) = Returned (Success message) ->
      exists ai_response,
        post (build_request self user_prompt system_prompt) = JsonBody ai_response /\
        extract_content ai_response = Returned message).
Proof.
  split.
  - intros self text H. unfold moderate_output in *.
    now rewrite (fold_redact_unmodified _ _ _ H).
  - intros self post user_prompt system_prompt message. unfold send_message.
    destruct (check_input (moderator self) user_prompt) as [[|] reason];
      cbn [negb fst]; [| discriminate].
    destruct (post _) as [e | e | e | ai_response]; try discriminate.
    intros H. exists ai_response. split; [reflexivity |].
    destruct (extract_content ai_response) as [ai_message | exc];
      cbn [bind] in H; [| discriminate].
    f_equal. unfold moderate_output_obj in H.
    destruct ai_message as [| b | n | text | items | entries];
      try (destruct (banned_keywords (moderator self));
           cbn [bind] in H; [congruence | discriminate]).
    destruct (moderate_output (moderator self) text) as [t [|]] eqn:E;
      cbn [bind] in H; [discriminate |].
    injection H as <-. f_equal.
    unfold moderate_output in E.
    pose proof (fold_redact_unmodified (banned_keywords (moderator self)) text false) as Hu.
    rewrite E in Hu. specialize (Hu eq_refl). congruence.
Qed.

Lemma unmodified_text_is_input_witness :
  fst (moderate_output (ModerationSystem_init BANNED_KEYWORDS) "Paris.") = "Paris." /\
  exists ai_response,
    (fun _ : Request => JsonBody (envelope (PStr "Paris.")))
      (build_request (AIChat_init "key" "url" "openai/gpt-4o")
         "What is the capital of France?" SYSTEM_PROMPT)
    = JsonBody ai_response /\
    extract_content ai_response = Returned (PStr "Paris.").
Proof.
  split.
  - apply (proj1 unmodified_text_is_input (ModerationSystem_init BANNED_KEYWORDS) "Paris.").
    vm_compute. reflexivity.
  - apply (proj2 unmodified_text_is_input (AIChat_init "key" "url" "openai/gpt-4o")
             (fun _ => JsonBody (envelope (PStr "Paris.")))
             "What is the capital of France?" SYSTEM_PROMPT (PStr "Paris.")).
    vm_compute. reflexivity.
Defined.

(** C9: the marker has ten characters; a pass for a non-empty term gives a
    text at most ten times as long as the one it read, and a vocabulary of
    [K] non-empty terms gives a text at most [10 ^ K] times as long as the
    input. *)
Theorem moderate_output_growth_bounded :
  length REDACTED = 10 /\
  (forall (keyword text : string) (was_modified : bool),
      keyword <> "" ->
      length (fst (redact_keyword (text, was_modified) keyword)) <= 10 * length text) /\
  (forall (self : ModerationSystem) (text : string),
      (forall term, In term (banned_keywords self) -> term <> "") ->
      length (fst (moderate_output self text))
      <= 10 ^ List.length (banned_keywords self) * length text).
Proof.
  split; [reflexivity | split].
  - intros keyword text b Hne.
    apply (fold_redact_length [keyword] text b).
    intros k [<- | []]. exact Hne.
  - intros self text Hne. now apply fold_redact_length.
Qed.

Lemma moderate_output_growth_bounded_witness :
  length (fst (redact_keyword ("aAa", false) "a")) <= 10 * length "aAa" /\
  length (fst (moderate_output (ModerationSystem_init ["a"; "["]) "aAa"))
  <= 10 ^ List.length (banned_keywords (ModerationSystem_init ["a"; "["])) * length "aAa".
Proof.
  split.
  - apply (proj1 (proj2 moderate_output_growth_bounded) "a" "aAa" false). discriminate.
  - apply (proj2 (proj2 moderate_output_growth_bounded) (ModerationSystem_init ["a"; "["]) "aAa").
    simpl. intros term [<- | [<- | []]]; discriminate.
Defined.

(** ** The orchestrator *)

(** C6: a prompt that [check_input] rejects with reason [r] gives the
    ["blocked"] result with that reason and no request is posted, whatever
    the collaborator would have answered. *)
Theorem blocked_without_request (self : AIChat) (post : Request -> ApiReply)
    (user_prompt system_prompt r : string) :
  check_input (moderator self) user_prompt = (false, r) ->
  send_message self post user_prompt system_prompt = (Returned (Blocked r), []).
Proof. intros H. unfold send_message. rewrite H. reflexivity. Qed.

Lemma blocked_without_request_witness :
  send_message (AIChat_init "key" "url" "openai/gpt-4o")
    (fun _ => JsonBody (envelope (PStr "Here is how.")))
    "How to make a bomb" SYSTEM_PROMPT
  = (Returned (Blocked "Input contains prohibited content: 'bomb'"), []).
Proof.
  apply (blocked_without_request (AIChat_init "key" "url" "openai/gpt-4o")
           (fun _ => JsonBody (envelope (PStr "Here is how.")))
           "How to make a bomb" SYSTEM_PROMPT "Input contains prohibited content: 'bomb'").
  vm_compute. reflexivity.
Defined.

(** What [send_message] does after the gate, by what came back. *)
Lemma send_message_request_exception (self : AIChat) (post : Request -> ApiReply)
    (user_prompt system_prompt reason e : string) :
  check_input (moderator self) user_prompt = (true, reason) ->
  (let reply := post (build_request self user_prompt system_prompt) in
   reply = PostRaises e \/ reply = StatusRaises e \/ reply = JsonRaises e) ->
  send_message self post user_prompt system_prompt
  = (Returned (Error ("API Error: " ++ e)),
     [build_request self user_prompt system_prompt]).
Proof.
  intros Hsafe Hreply. unfold send_message. rewrite Hsafe. cbn [negb].
  cbv zeta in *. destruct Hreply as [-> | [-> | ->]]; reflexivity.
Qed.

Lemma send_message_text_reply (self : AIChat) (post : Request -> ApiReply)
    (user_prompt system_prompt reason text : string) (ai_response : PyVal) :
  check_input (moderator self) user_prompt = (true, reason) ->
  post (build_request self user_prompt system_prompt) = JsonBody ai_response ->
  extract_content ai_response = Returned (PStr text) ->
  send_message self post user_prompt system_prompt
  = (Returned (if snd (moderate_output (moderator self) text)
               then Moderated (PStr (fst (moderate_output (moderator self) text)))
                      redacted_warning
               else Success (PStr (fst (moderate_output (moderator self) text)))),
     [build_request self user_prompt system_prompt]).
Proof.
  intros Hsafe Hreply Hcontent. unfold send_message. rewrite Hsafe. cbn [negb].
  cbv zeta. rewrite Hreply, Hcontent. cbn [bind moderate_output_obj].
  destruct (moderate_output (moderator self) text) as [t [|]]; reflexivity.
Qed.

(** C1, where it fails: the prompt passes the gate, the collaborator
    answers with status 200 and a JSON body that has no ["choices"], and
    [send_message] raises [KeyError] out of the [try], whose [except]
    names [RequestException] only. *)
Theorem send_message_missing_field_raises (key url name : string) :
  send_message (AIChat_init key url name)
    (fun _ => JsonBody (PDict [ ("error",
        PDict [ ("message", PStr "Rate limit exceeded"); ("code", PNum "429") ]) ]))
    "What is the capital of France?" SYSTEM_PROMPT
  = (Raised KeyError,
     [build_request (AIChat_init key url name) "What is the capital of France?" SYSTEM_PROMPT]).
Proof. reflexivity. Qed.

(** The same with a reply whose ["content"] is [null]. *)
Lemma send_message_null_content_raises (key url name : string) :
  send_message (AIChat_init key url name) (fun _ => JsonBody (envelope PNone))
    "What is the capital of France?" SYSTEM_PROMPT
  = (Raised AttributeError,
     [build_request (AIChat_init key url name) "What is the capital of France?" SYSTEM_PROMPT]).
Proof. reflexivity. Qed.

(** ** A second application of the output filter *)

Section SecondApplication.

Lemma apartb_spec (term marker : string) :
  apartb term marker = true <-> apart term marker.
Proof.
  unfold apartb, apart.
  rewrite !andb_true_iff, !negb_true_iff, !contains_false, !overlapsb_false.
  tauto.
Qed.

(** A term that is apart from the marker occurs around a marker only
    before it or after it. *)
Lemma apart_barrier (t m a b : string) :
  apart t m -> occurs_in t (a ++ m ++ b) -> occurs_in t a \/ occurs_in t b.
Proof.
  intros [Htm [Hmt [Hov1 Hov2]]] [p [q Heq]].
  destruct (append_eq_append _ _ _ _ Heq) as [[z [-> Hz]] | [z [-> Hz]]].
  - (* the occurrence starts at or after the start of the marker *)
    destruct (append_eq_append _ _ _ _ Hz) as [[z' [-> ->]] | [w [-> Hw]]].
    + right. now exists z', q.
    + destruct (append_eq_append _ _ _ _ Hw) as [[w' [-> ->]] | [w' [-> ->]]].
      * exfalso. apply Htm. now exists z, w'.
      * destruct w as [|c w].
        -- right. exists "", q. reflexivity.
        -- exfalso. apply Hov2. exists (String c w), z, w'.
           split; [discriminate | split; reflexivity].
  - (* the occurrence starts before the marker *)
    destruct (append_eq_append _ _ _ _ Hz) as [[z' [-> ->]] | [w [-> Hw]]].
    + left. now exists p, z'.
    + destruct (append_eq_append _ _ _ _ Hw) as [[w' [-> ->]] | [w' [-> ->]]].
      * exfalso. apply Hmt. now exists z, w'.
      * destruct w as [|c w].
        -- left. exists p, "". now rewrite !append_empty_r.
        -- exfalso. apply Hov1. exists (String c w), z, w'.
           split; [discriminate | split; reflexivity].
Qed.

Lemma apart_nonempty (t m : string) : apart t m -> t <> "".
Proof. intros [H _] ->. apply H. now exists "", m. Qed.

Variable marker_lower : string.
Hypothesis marker_lower_eq : marker_lower = lower REDACTED.

(** After its pass a term no longer occurs. *)
Lemma Redacts_removes (term s out : string) :
  Redacts term s out -> apart (lower term) marker_lower -> ~ occurs_ci term out.
Proof.
  intros Hred Hapart.
  induction Hred as [s Hclean | kept matched rest rest' Hne Hm Hleft Hrest IH
                    | Hempty | c s s' Hempty _ _].
  - exact Hclean.
  - unfold occurs_ci. rewrite !lower_append, <- marker_lower_eq. intros Hocc.
    destruct (apart_barrier _ _ _ _ Hapart Hocc) as [Hkept | Hlater]; [| now apply IH].
    destruct Hkept as [p0 [q0 Hkept]].
    destruct (lower_eq_append _ _ _ Hkept) as [p [mq [-> [_ Hmq]]]].
    destruct (lower_eq_append _ _ _ Hmq) as [m [q [-> [Hlow _]]]].
    assert (Hcut : (p ++ m ++ q) ++ matched ++ rest = p ++ m ++ (q ++ matched ++ rest))
      by now rewrite !append_assoc.
    specialize (Hleft _ _ _ Hcut Hlow).
    pose proof (lower_eq_length _ _ Hlow) as Hlen.
    rewrite !length_append in Hleft.
    destruct term; [now contradiction Hne | simpl in Hlen; lia].
  - subst term. now apply apart_nonempty in Hapart.
  - subst term. now apply apart_nonempty in Hapart.
Qed.

(** The pass of a non-empty term brings in no occurrence of a term that is
    apart from the marker. *)
Lemma Redacts_preserves (term other s out : string) :
  Redacts term s out -> term <> "" -> apart (lower other) marker_lower ->
  ~ occurs_ci other s -> ~ occurs_ci other out.
Proof.
  intros Hred Hne Hapart.
  induction Hred as [s Hclean | kept matched rest rest' _ Hm Hleft Hrest IH
                    | Hempty | c s s' Hempty _ _];
    try contradiction.
  - auto.
  - unfold occurs_ci. rewrite !lower_append, <- marker_lower_eq. intros Hclean Hocc.
    destruct (apart_barrier _ _ _ _ Hapart Hocc) as [Hkept | Hlater].
    + apply Hclean. now apply occurs_in_left.
    + revert Hlater. apply IH. intros Hrest'. apply Hclean.
      now apply occurs_in_right, occurs_in_right.
Qed.

Lemma RedactsAll_preserves (terms : list string) (other s out : string) :
  RedactsAll terms s out ->
  (forall term, In term terms -> term <> "") ->
  apart (lower other) marker_lower ->
  ~ occurs_ci other s -> ~ occurs_ci other out.
Proof.
  intros Hall. induction Hall as [s | term terms s s1 s2 Hred _ IH];
    intros Hne Hapart Hclean; [exact Hclean |].
  apply IH; [intros t Ht; apply Hne; now right | exact Hapart |].
  apply (Redacts_preserves term other s s1); auto. apply Hne. now left.
Qed.

(** After the passes of a vocabulary whose terms are apart from the marker
    no term of it occurs. *)
Lemma RedactsAll_removes (terms : list string) (s out : string) :
  RedactsAll terms s out ->
  (forall term, In term terms -> apart (lower term) marker_lower) ->
  forall term, In term terms -> ~ occurs_ci term out.
Proof.
  intros Hall. induction Hall as [s | term terms s s1 s2 Hred Hrest IH];
    intros Hapart t Ht; [contradiction |].
  destruct Ht as [<- | Ht].
  - apply (RedactsAll_preserves terms term s1 s2 Hrest).
    + intros t Ht Hempty. specialize (Hapart t (or_intror Ht)).
      apply apart_nonempty in Hapart. subst t. now apply Hapart.
    + apply Hapart. now left.
    + apply (Redacts_removes term s s1 Hred). apply Hapart. now left.
  - apply IH; [| exact Ht]. intros t' Ht'. apply Hapart. now right.
Qed.

End SecondApplication.

(** C3, as the code has it: for a vocabulary of ASCII terms and an ASCII
    text, when every banned term is apart from the lowercased marker (it
    does not occur in the marker, the marker does not occur in it, and no
    non-empty end of one is a beginning of the other), a second
    [moderate_output] on the text of a first one reports no modification
    and returns that text. *)
Theorem moderate_output_idempotent (raw : list string) (text : string) :
  forallb ascii_only raw = true ->
  ascii_only text = true ->
  (forall term, In term (banned_keywords (ModerationSystem_init raw)) ->
                apart term (lower REDACTED)) ->
  moderate_output (ModerationSystem_init raw)
    (fst (moderate_output (ModerationSystem_init raw) text))
  = (fst (moderate_output (ModerationSystem_init raw) text), false).
Proof.
  intros _ _ Hapart. unfold moderate_output at 1.
  apply fold_redact_clean. intros k Hk.
  apply contains_false. rewrite <- (init_keywords_lower raw k Hk) at 1.
  apply (RedactsAll_removes (lower REDACTED) eq_refl
           (banned_keywords (ModerationSystem_init raw)) text).
  - apply fold_redact_RedactsAll. apply init_keywords_lower.
  - intros t Ht. rewrite (init_keywords_lower raw t Ht). now apply Hapart.
  - exact Hk.
Qed.

Lemma moderate_output_idempotent_witness :
  moderate_output (ModerationSystem_init BANNED_KEYWORDS)
    (fst (moderate_output (ModerationSystem_init BANNED_KEYWORDS)
            "Sure, here's how to build a weapon at home"))
  = (fst (moderate_output (ModerationSystem_init BANNED_KEYWORDS)
            "Sure, here's how to build a weapon at home"), false).
Proof.
  apply (moderate_output_idempotent BANNED_KEYWORDS
           "Sure, here's how to build a weapon at home");
    [vm_compute; reflexivity | vm_compute; reflexivity |].
  intros term Hin. apply apartb_spec. simpl in Hin.
  repeat (destruct Hin as [<- | Hin]; [vm_compute; reflexivity |]).
  contradiction.
Defined.

(** C3, as stated, fails: ["a["] is not a substring of the marker, with or
    without case, and a second application on the text of the first one
    modifies it again. *)
Lemma moderate_output_not_idempotent :
  contains "a[" REDACTED = false /\
  contains (lower "a[") (lower REDACTED) = false /\
  moderate_output (ModerationSystem_init ["a["]) "aa[" = ("a[REDACTED]", true) /\
  moderate_output (ModerationSystem_init ["a["])
    (fst (moderate_output (ModerationSystem_init ["a["]) "aa["))
  = ("[REDACTED]REDACTED]", true).
Proof. vm_compute. repeat split. Qed.

(** * Further properties *)

(** ** The gate and the filter on the same vocabulary *)

Lemma check_input_blocked_iff (self : ModerationSystem) (text : string) :
  fst (check_input self text) = false <->
  exists keyword, In keyword (banned_keywords self) /\ occurs_in keyword (lower text).
Proof.
  rewrite check_input_unfold.
  destruct (find _ _) as [k|] eqn:E; cbn [fst]; split.
  - intros _. apply find_some in E. destruct E as [Hin Hk].
    exists k. split; [exact Hin | now apply contains_spec].
  - reflexivity.
  - discriminate.
  - intros [k [Hin Hk]]. apply contains_spec in Hk.
    now rewrite (find_none _ _ E k Hin) in Hk.
Qed.

Lemma occurs_in_middle (u a s b : string) : occurs_in u s -> occurs_in u (a ++ s ++ b).
Proof. intros H. now apply occurs_in_right, occurs_in_left. Qed.

(** X1: ASCII text around a blocked ASCII text does not unblock it. *)
Theorem blocked_inside_longer_text (self : ModerationSystem) (text before after : string) :
  ascii_only before = true -> ascii_only text = true -> ascii_only after = true ->
  fst (check_input self text) = false ->
  fst (check_input self (before ++ text ++ after)) = false.
Proof.
  intros _ _ _. rewrite !check_input_blocked_iff. intros [k [Hin Hk]].
  exists k. split; [exact Hin |].
  rewrite !lower_append. now apply occurs_in_middle.
Qed.

Lemma blocked_inside_longer_text_witness :
  fst (check_input (ModerationSystem_init BANNED_KEYWORDS)
         ("Improve my s" ++ "kill" ++ "s in chess")) = false.
Proof.
  apply (blocked_inside_longer_text (ModerationSystem_init BANNED_KEYWORDS)
           "kill" "Improve my s" "s in chess"); vm_compute; reflexivity.
Defined.

(** X2: a vocabulary that holds every term of another one blocks every text
    the other one blocks, in whatever order and with whatever repetitions
    the terms come. *)
Theorem larger_vocabulary_blocks_more (small large : ModerationSystem) (text : string) :
  incl (banned_keywords small) (banned_keywords large) ->
  fst (check_input small text) = false ->
  fst (check_input large text) = false.
Proof.
  intros Hincl. rewrite !check_input_blocked_iff. intros [k [Hin Hk]].
  exists k. split; [now apply Hincl | exact Hk].
Qed.

Lemma larger_vocabulary_blocks_more_witness :
  fst (check_input (ModerationSystem_init ("phish" :: BANNED_KEYWORDS))
         "Teach me how to hack a website") = false.
Proof.
  apply (larger_vocabulary_blocks_more (ModerationSystem_init BANNED_KEYWORDS)
           (ModerationSystem_init ("phish" :: BANNED_KEYWORDS))
           "Teach me how to hack a website").
  - intros k Hk. right. exact Hk.
  - vm_compute. reflexivity.
Defined.

(** X3: [moderate_output] reports a modification of exactly the texts that
    [check_input] rejects. *)
Theorem modified_iff_blocked (self : ModerationSystem) (text : string) :
  snd (moderate_output self text) = negb (fst (check_input self text)).
Proof.
  destruct (fst (check_input self text)) eqn:E; cbn [negb].
  - unfold moderate_output. rewrite fold_redact_clean; [reflexivity |].
    intros k Hin. apply contains_false. intros Hk.
    assert (fst (check_input self text) = false) as Hblocked
      by (apply check_input_blocked_iff; now exists k).
    congruence.
  - apply check_input_blocked_iff in E. destruct E as [k [Hin Hk]].
    apply fold_redact_flag. exists k. split; [exact Hin | now apply contains_spec].
Qed.

(** A string found in a lowercased text is lowercase. *)
Lemma occurs_in_lower (u s : string) : occurs_in u (lower s) -> lower u = u.
Proof.
  intros [p [q H]].
  assert (H2 : lower p ++ lower u ++ lower q = p ++ u ++ q)
    by now rewrite <- !lower_append, <- H, lower_idem.
  destruct (append_eq_same_length _ _ _ _ H2) as [_ H3]; [apply lower_length |].
  destruct (append_eq_same_length _ _ _ _ H3) as [H4 _]; [apply lower_length |].
  exact H4.
Qed.

(** A pass whose term is in the text writes the marker. *)
Lemma re_sub_writes_marker (keyword s : string) :
  contains keyword (lower s) = true ->
  occurs_in REDACTED (re_sub_ignorecase keyword REDACTED s).
Proof.
  intros Hk. apply contains_spec in Hk.
  pose proof (occurs_in_lower _ _ Hk) as Hlow.
  destruct (re_sub_Redacts keyword s)
    as [s Hclean | kept matched rest rest' _ _ _ _ | _ | c s s' _ _].
  - exfalso. apply Hclean. unfold occurs_ci. now rewrite Hlow.
  - now exists kept, rest'.
  - exists "", "". reflexivity.
  - exists "", (String c s'). reflexivity.
Qed.

(** X4: an ASCII text that [moderate_output] reports as modified holds the
    marker. *)
Theorem modified_text_holds_marker (self : ModerationSystem) (text : string) :
  ascii_only text = true ->
  snd (moderate_output self text) = true ->
  occurs_in "[REDACTED]" (fst (moderate_output self text)).
Proof.
  intros _. unfold moderate_output.
  induction (banned_keywords self) as [|k ks IH] using rev_ind; [discriminate |].
  rewrite fold_left_app. cbn [fold_left].
  destruct (fold_left redact_keyword ks (text, false)) as [s b].
  unfold redact_keyword. destruct (contains k (lower s)) eqn:E; cbn [fst snd] in *.
  - intros _. now apply re_sub_writes_marker.
  - exact IH.
Qed.

Lemma modified_text_holds_marker_witness :
  occurs_in "[REDACTED]"
    (fst (moderate_output (ModerationSystem_init ["red"; "weapon"]) "A weapon")).
Proof.
  apply (modified_text_holds_marker (ModerationSystem_init ["red"; "weapon"]) "A weapon");
    vm_compute; reflexivity.
Defined.


Lemma moderate_output_clears (raw : list string) (text term : string) :
  (forall t, In t (banned_keywords (ModerationSystem_init raw)) ->
             apart t (lower REDACTED)) ->
  In term (banned_keywords (ModerationSystem_init raw)) ->
  ~ occurs_in term (lower (fst (moderate_output (ModerationSystem_init raw) text))).
Proof.
  intros Hapart Hin.
  rewrite <- (init_keywords_lower raw term Hin) at 1.
  apply (RedactsAll_removes (lower REDACTED) eq_refl
           (banned_keywords (ModerationSystem_init raw)) text).
  - apply fold_redact_RedactsAll. apply init_keywords_lower.
  - intros t Ht. rewrite (init_keywords_lower raw t Ht). now apply Hapart.
  - exact Hin.
Qed.

(** X5: for a vocabulary of ASCII terms, each apart from the lowercased
    marker, the text that [moderate_output] returns for an ASCII text
    passes [check_input]. *)
Theorem moderated_text_passes_gate (raw : list string) (text : string) :
  forallb ascii_only raw = true ->
  ascii_only text = true ->
  (forall term, In term (banned_keywords (ModerationSystem_init raw)) ->
                apart term (lower REDACTED)) ->
  check_input (ModerationSystem_init raw)
    (fst (moderate_output (ModerationSystem_init raw) text))
  = (true, "Input passed moderation").
Proof.
  intros _ _ Hapart. rewrite check_input_unfold.
  destruct (find _ _) as [k|] eqn:E; [| reflexivity].
  apply find_some in E. destruct E as [Hin Hk]. apply contains_spec in Hk.
  now apply (moderate_output_clears raw text k Hapart Hin) in Hk.
Qed.

Lemma moderated_text_passes_gate_witness :
  check_input (ModerationSystem_init ["Bomb"; "hack"])
    (fst (moderate_output (ModerationSystem_init ["Bomb"; "hack"]) "A BOMB for hackers"))
  = (true, "Input passed moderation").
Proof.
  apply (moderated_text_passes_gate ["Bomb"; "hack"] "A BOMB for hackers");
    [vm_compute; reflexivity | vm_compute; reflexivity |].
  intros term Hin. apply apartb_spec. simpl in Hin.
  repeat (destruct Hin as [<- | Hin]; [vm_compute; reflexivity |]).
  contradiction.
Defined.

(** The empty pattern: the replacement before every character and at the
    end. *)
Lemma re_sub_empty_length (repl s : string) :
  length (re_sub_ignorecase "" repl s) = (length s + 1) * length repl + length s.
Proof.
  induction s as [|c s IH]; simp re_sub_ignorecase.
  - simpl. lia.
  - rewrite length_append. simpl length. rewrite IH. lia.
Qed.

Lemma substring_whole (s : string) : substring 0 (length s) s = s.
Proof. induction s as [|c s IH]; simpl; [reflexivity | now rewrite IH]. Qed.

Lemma substring_prefix (a s : string) : substring 0 (length a) (a ++ s) = a.
Proof.
  induction a as [|c a IH]; simpl; [now destruct s | now rewrite IH].
Qed.

Lemma substring_skip (a s : string) (k m : nat) :
  substring (length a + k) m (a ++ s) = substring k m s.
Proof. induction a as [|c a IH]; simpl; [reflexivity | exact IH]. Qed.

Lemma get_skip (a s : string) (k : nat) : get (length a + k) (a ++ s) = get k s.
Proof. induction a as [|c a IH]; simpl; [reflexivity | exact IH]. Qed.

Lemma re_sub_empty_places (repl s : string) (i : nat) :
  (i <= length s ->
   substring (i * (length repl + 1)) (length repl) (re_sub_ignorecase "" repl s) = repl) /\
  (i < length s ->
   get (i * (length repl + 1) + length repl) (re_sub_ignorecase "" repl s) = get i s).
Proof.
  revert i; induction s as [|c s IH]; intros i; simp re_sub_ignorecase.
  - split; intros Hi; simpl in Hi; [| lia].
    assert (i = 0) as -> by lia. apply substring_whole.
  - destruct i as [|i].
    + split; intros _.
      * apply substring_prefix.
      * cbn [Nat.mul Nat.add].
        replace (length repl) with (length repl + 0) at 1 by lia.
        rewrite get_skip. reflexivity.
    + destruct (IH i) as [IHm IHc].
      assert (Hcut : forall t, repl ++ String c t = (repl ++ String c "") ++ t)
        by (intros t; now rewrite append_assoc).
      assert (Hlen : length (repl ++ String c "") = length repl + 1)
        by (rewrite length_append; reflexivity).
      rewrite Hcut. split; intros Hi; simpl in Hi.
      * replace (S i * (length repl + 1))
          with (length (repl ++ String c "") + i * (length repl + 1)) by (rewrite Hlen; lia).
        rewrite substring_skip. apply IHm. lia.
      * replace (S i * (length repl + 1) + length repl)
          with (length (repl ++ String c "") + (i * (length repl + 1) + length repl))
          by (rewrite Hlen; lia).
        rewrite get_skip. cbn [get]. apply IHc. lia.
Qed.

(** X6: the pass of an empty term modifies every ASCII text, the empty one
    included: it makes a text of [n] characters one of [11 * n + 10], with
    the marker at the positions [11 * i] for [i] up to [n] and the
    character number [i] of the text behind the marker number [i]. *)
Theorem empty_term_pass (text : string) (was_modified : bool) :
  ascii_only text = true ->
  snd (redact_keyword (text, was_modified) "") = true /\
  length (fst (redact_keyword (text, was_modified) "")) = 11 * length text + 10 /\
  (forall i, i <= length text ->
     substring (11 * i) 10 (fst (redact_keyword (text, was_modified) "")) = "[REDACTED]") /\
  (forall i, i < length text ->
     get (11 * i + 10) (fst (redact_keyword (text, was_modified) "")) = get i text).
Proof.
  intros _. unfold redact_keyword. rewrite contains_empty. cbn [fst snd].
  split; [reflexivity |]. split.
  - rewrite re_sub_empty_length. change (length REDACTED) with 10. lia.
  - split; intros i Hi.
    + replace (11 * i) with (i * (length REDACTED + 1)) by (change (length REDACTED) with 10; lia).
      now apply (re_sub_empty_places REDACTED text i).
    + replace (11 * i + 10) with (i * (length REDACTED + 1) + length REDACTED)
        by (change (length REDACTED) with 10; lia).
      now apply (re_sub_empty_places REDACTED text i).
Qed.

Lemma empty_term_pass_witness :
  snd (redact_keyword ("ab", false) "") = true /\
  length (fst (redact_keyword ("ab", false) "")) = 11 * length "ab" + 10 /\
  (forall i, i <= length "ab" ->
     substring (11 * i) 10 (fst (redact_keyword ("ab", false) "")) = "[REDACTED]") /\
  (forall i, i < length "ab" ->
     get (11 * i + 10) (fst (redact_keyword ("ab", false) "")) = get i "ab").
Proof.
  apply (empty_term_pass "ab" false). vm_compute. reflexivity.
Defined.

(** ** More on the orchestrator *)

Lemma check_input_safe_clean (self : ModerationSystem) (text : string) :
  fst (check_input self text) = true ->
  forall keyword, In keyword (banned_keywords self) -> ~ occurs_in keyword (lower text).
Proof.
  intros Hsafe k Hin Hk.
  assert (fst (check_input self text) = false) as Hblocked
    by (apply check_input_blocked_iff; now exists k).
  congruence.
Qed.

(** X7: [send_message] posts one request when the prompt passes the gate
    and none when it does not, whatever comes back; the request carries the
    two prompts as given, and its user prompt holds no banned term. *)
Theorem posted_prompt_passed_gate (self : AIChat) (post : Request -> ApiReply)
    (user_prompt system_prompt : string) :
  snd (send_message self post user_prompt system_prompt)
  = (if fst (check_input (moderator self) user_prompt)
     then [build_request self user_prompt system_prompt] else []) /\
  (forall request, In request (snd (send_message self post user_prompt system_prompt)) ->
     req_messages request = [("system", system_prompt); ("user", user_prompt)] /\
     forall keyword, In keyword (banned_keywords (moderator self)) ->
                     ~ occurs_in keyword (lower user_prompt)).
Proof.
  assert (Hlog : snd (send_message self post user_prompt system_prompt)
                 = (if fst (check_input (moderator self) user_prompt)
                    then [build_request self user_prompt system_prompt] else [])).
  { unfold send_message.
    destruct (check_input (moderator self) user_prompt) as [[|] reason]; reflexivity. }
  split; [exact Hlog |].
  intros request Hin. rewrite Hlog in Hin.
  destruct (fst (check_input (moderator self) user_prompt)) eqn:Hsafe; [| contradiction].
  destruct Hin as [<- | []]. split; [reflexivity |].
  now apply check_input_safe_clean.
Qed.

Lemma posted_prompt_passed_gate_witness :
  req_messages
    (build_request (AIChat_init "key" "url" "openai/gpt-4o")
       "What is the capital of France?" SYSTEM_PROMPT)
  = [("system", SYSTEM_PROMPT); ("user", "What is the capital of France?")] /\
  forall keyword,
    In keyword (banned_keywords (moderator (AIChat_init "key" "url" "openai/gpt-4o"))) ->
    ~ occurs_in keyword (lower "What is the capital of France?").
Proof.
  apply (proj2 (posted_prompt_passed_gate (AIChat_init "key" "url" "openai/gpt-4o")
                  (fun _ => PostRaises "timed out")
                  "What is the capital of France?" SYSTEM_PROMPT)).
  vm_compute. left. reflexivity.
Defined.

(** X8: the extraction returns a content exactly from a body that is an
    object whose ["choices"] is a non-empty list, whose first choice is an
    object, whose ["message"] is an object with a ["content"]. *)
Theorem extract_content_returns_iff (ai_response content : PyVal) :
  extract_content ai_response = Returned content <->
  exists entries choice others message,
    ai_response = PDict entries /\
    dict_get "choices" entries = Some (PList (PDict choice :: others)) /\
    dict_get "message" choice = Some (PDict message) /\
    dict_get "content" message = Some content.
Proof.
  unfold extract_content. split.
  - destruct ai_response as [| | | | |entries]; try discriminate.
    cbn [getitem bind].
    destruct (dict_get "choices" entries) as [choices|] eqn:E1; [| discriminate].
    cbn [bind].
    destruct choices as [| | |s|items|e]; try discriminate.
    + destruct s; discriminate.
    + destruct items as [|first others]; [discriminate |].
      cbn [getitem0 bind].
      destruct first as [| | | | |choice]; try discriminate.
      cbn [getitem bind].
      destruct (dict_get "message" choice) as [msg|] eqn:E2; [| discriminate].
      cbn [bind].
      destruct msg as [| | | | |message]; try discriminate.
      cbn [getitem].
      destruct (dict_get "content" message) as [v|] eqn:E3; [| discriminate].
      intros [= <-]. now exists entries, choice, others, message.
  - intros [entries [choice [others [message [-> [E1 [E2 E3]]]]]]].
    cbn [getitem bind]. rewrite E1. cbn [bind getitem0 getitem].
    rewrite E2. cbn [bind getitem]. now rewrite E3.
Qed.

Lemma extract_content_returns_iff_witness :
  extract_content (envelope (PStr "Paris.")) = Returned (PStr "Paris.").
Proof.
  apply (proj2 (extract_content_returns_iff (envelope (PStr "Paris.")) (PStr "Paris."))).
  exists [ ("id", PStr "gen-1");
           ("choices", PList [ PDict [ ("message",
               PDict [ ("role", PStr "assistant"); ("content", PStr "Paris.") ]) ] ]) ],
         [ ("message", PDict [ ("role", PStr "assistant"); ("content", PStr "Paris.") ]) ],
         [],
         [ ("role", PStr "assistant"); ("content", PStr "Paris.") ].
  repeat split.
Defined.

Lemma bind_raised {A B : Type} (c : Outcome A) (k : A -> Outcome B) (e : PyExc) :
  bind c k = Raised e -> c = Raised e \/ exists a, c = Returned a /\ k a = Raised e.
Proof.
  destruct c as [a | e']; cbn [bind]; intros H.
  - right. now exists a.
  - left. now injection H as ->.
Qed.

(** The subscripts of the extraction raise [KeyError], [IndexError] or
    [TypeError]. *)
Lemma extract_content_raised (ai_response : PyVal) (e : PyExc) :
  extract_content ai_response = Raised e ->
  e = KeyError \/ e = IndexError \/ e = TypeError.
Proof.
  assert (Hget : forall v key e', getitem v key = Raised e' ->
                 e' = KeyError \/ e' = IndexError \/ e' = TypeError).
  { intros v key e'. unfold getitem.
    destruct v as [| | | | |entries]; try (intros [= <-]; tauto).
    destruct (dict_get key entries); [discriminate | intros [= <-]; tauto]. }
  assert (Hget0 : forall v e', getitem0 v = Raised e' ->
                  e' = KeyError \/ e' = IndexError \/ e' = TypeError).
  { intros v e'. unfold getitem0.
    destruct v as [| | |[|c s']|[|x items]|entries];
      try discriminate; intros [= <-]; tauto. }
  unfold extract_content. intros H.
  apply bind_raised in H. destruct H as [H | [choices [_ H]]]; [now apply Hget in H |].
  apply bind_raised in H. destruct H as [H | [choice [_ H]]]; [now apply Hget0 in H |].
  apply bind_raised in H. destruct H as [H | [message [_ H]]]; now apply Hget in H.
Qed.

Lemma send_message_bad_body (self : AIChat) (post : Request -> ApiReply)
    (user_prompt system_prompt : string) (ai_response : PyVal) (e : PyExc) :
  fst (check_input (moderator self) user_prompt) = true ->
  post (build_request self user_prompt system_prompt) = JsonBody ai_response ->
  extract_content ai_response = Raised e ->
  fst (send_message self post user_prompt system_prompt) = Raised e.
Proof.
  intros Hsafe Hreply Hbad. unfold send_message.
  destruct (check_input (moderator self) user_prompt) as [safe reason].
  cbn [fst] in Hsafe. subst safe. cbn [negb fst]. cbv zeta.
  rewrite Hreply, Hbad. reflexivity.
Qed.

Lemma send_message_bad_content (self : AIChat) (post : Request -> ApiReply)
    (user_prompt system_prompt : string) (ai_response content : PyVal) :
  fst (check_input (moderator self) user_prompt) = true ->
  post (build_request self user_prompt system_prompt) = JsonBody ai_response ->
  extract_content ai_response = Returned content ->
  (forall text, content <> PStr text) ->
  banned_keywords (moderator self) <> [] ->
  fst (send_message self post user_prompt system_prompt) = Raised AttributeError.
Proof.
  intros Hsafe Hreply Hcontent Hstr Hne. unfold send_message.
  destruct (check_input (moderator self) user_prompt) as [safe reason].
  cbn [fst] in Hsafe. subst safe. cbn [negb fst]. cbv zeta.
  rewrite Hreply, Hcontent. cbn [bind]. unfold moderate_output_obj.
  destruct content as [| b | n | text | items | entries];
    try (destruct (banned_keywords (moderator self)); [now contradiction Hne | reflexivity]).
  now contradiction (Hstr text).
Qed.

(** X9: when the prompt passed the gate and the body of the response
    parsed, [send_message] raises the exception of the extraction if the
    extraction raises, which is [KeyError], [IndexError] or [TypeError] on
    every body from which no content can be taken; and it raises
    [AttributeError] if the content is not a string and the vocabulary is
    not empty. *)
Theorem bad_body_makes_send_message_raise (self : AIChat) (post : Request -> ApiReply)
    (user_prompt system_prompt : string) (ai_response : PyVal) :
  fst (check_input (moderator self) user_prompt) = true ->
  post (build_request self user_prompt system_prompt) = JsonBody ai_response ->
  (forall e, extract_content ai_response = Raised e ->
             fst (send_message self post user_prompt system_prompt) = Raised e) /\
  ((forall content, extract_content ai_response <> Returned content) ->
   exists e,
     fst (send_message self post user_prompt system_prompt) = Raised e /\
     (e = KeyError \/ e = IndexError \/ e = TypeError)) /\
  (forall content,
      extract_content ai_response = Returned content ->
      (forall text, content <> PStr text) ->
      banned_keywords (moderator self) <> [] ->
      fst (send_message self post user_prompt system_prompt) = Raised AttributeError).
Proof.
  intros Hsafe Hreply. split; [| split].
  - intros e He. now apply (send_message_bad_body self post _ _ ai_response).
  - intros Hnone. destruct (extract_content ai_response) as [content | e] eqn:He.
    + now contradiction (Hnone content).
    + exists e. split.
      * now apply (send_message_bad_body self post _ _ ai_response).
      * now apply (extract_content_raised ai_response).
  - intros content Hcontent Hstr Hne.
    now apply (send_message_bad_content self post _ _ ai_response content).
Qed.

Lemma bad_body_makes_send_message_raise_witness :
  (forall e, extract_content (PDict [("choices", PList [])]) = Raised e ->
             fst (send_message (AIChat_init "key" "url" "openai/gpt-4o")
                    (fun _ => JsonBody (PDict [("choices", PList [])]))
                    "What is the capital of France?" SYSTEM_PROMPT) = Raised e) /\
  ((forall content, extract_content (PDict [("choices", PList [])]) <> Returned content) ->
   exists e,
     fst (send_message (AIChat_init "key" "url" "openai/gpt-4o")
            (fun _ => JsonBody (PDict [("choices", PList [])]))
            "What is the capital of France?" SYSTEM_PROMPT) = Raised e /\
     (e = KeyError \/ e = IndexError \/ e = TypeError)) /\
  (forall content,
      extract_content (PDict [("choices", PList [])]) = Returned content ->
      (forall text, content <> PStr text) ->
      banned_keywords (moderator (AIChat_init "key" "url" "openai/gpt-4o")) <> [] ->
      fst (send_message (AIChat_init "key" "url" "openai/gpt-4o")
             (fun _ => JsonBody (PDict [("choices", PList [])]))
             "What is the capital of France?" SYSTEM_PROMPT) = Raised AttributeError).
Proof.
  apply (bad_body_makes_send_message_raise (AIChat_init "key" "url" "openai/gpt-4o")
           (fun _ => JsonBody (PDict [("choices", PList [])]))
           "What is the capital of France?" SYSTEM_PROMPT (PDict [("choices", PList [])]));
    vm_compute; reflexivity.
Defined.

Lemma passing_text_unmodified (self : ModerationSystem) (text : string) :
  fst (check_input self text) = true -> moderate_output self text = (text, false).
Proof.
  intros Hsafe. unfold moderate_output. apply fold_redact_clean.
  intros k Hin. apply contains_false. now apply (check_input_safe_clean self text Hsafe).
Qed.

Lemma blocked_text_modified (self : ModerationSystem) (text : string) :
  fst (check_input self text) = false -> snd (moderate_output self text) = true.
Proof.
  intros Hblocked. apply check_input_blocked_iff in Hblocked.
  destruct Hblocked as [k [Hin Hk]].
  apply fold_redact_flag. exists k. split; [exact Hin | now apply contains_spec].
Qed.

(** X10: a string reply comes back as ["success"], unchanged, when it would
    itself pass the gate, and as ["moderated"], redacted and with the
    warning, when it would not. *)
Theorem reply_classified_by_gate (self : AIChat) (post : Request -> ApiReply)
    (user_prompt system_prompt text : string) (ai_response : PyVal) :
  fst (check_input (moderator self) user_prompt) = true ->
  post (build_request self user_prompt system_prompt) = JsonBody ai_response ->
  extract_content ai_response = Returned (PStr text) ->
  fst (send_message self post user_prompt system_prompt)
  = Returned (if fst (check_input (moderator self) text)
              then Success (PStr text)
              else Moderated (PStr (fst (moderate_output (moderator self) text)))
                     "Response contained restricted content that was redacted").
Proof.
  intros Hsafe Hreply Hcontent.
  destruct (check_input (moderator self) user_prompt) as [safe reason] eqn:Hgate.
  cbn [fst] in Hsafe. subst safe.
  rewrite (send_message_text_reply self post user_prompt system_prompt reason text
             ai_response Hgate Hreply Hcontent).
  cbn [fst].
  destruct (fst (check_input (moderator self) text)) eqn:E.
  - now rewrite (passing_text_unmodified _ _ E).
  - now rewrite (blocked_text_modified _ _ E).
Qed.

Lemma reply_classified_by_gate_witness :
  fst (send_message (AIChat_init "key" "url" "openai/gpt-4o")
         (fun _ => JsonBody (envelope (PStr "Use a Bomb calorimeter.")))
         "How is heat of combustion measured?" SYSTEM_PROMPT)
  = Returned (if fst (check_input (moderator (AIChat_init "key" "url" "openai/gpt-4o"))
                        "Use a Bomb calorimeter.")
              then Success (PStr "Use a Bomb calorimeter.")
              else Moderated
                     (PStr (fst (moderate_output
                                   (moderator (AIChat_init "key" "url" "openai/gpt-4o"))
                                   "Use a Bomb calorimeter.")))
                     "Response contained restricted content that was redacted").
Proof.
  apply (reply_classified_by_gate (AIChat_init "key" "url" "openai/gpt-4o")
           (fun _ => JsonBody (envelope (PStr "Use a Bomb calorimeter.")))
           "How is heat of combustion measured?" SYSTEM_PROMPT
           "Use a Bomb calorimeter." (envelope (PStr "Use a Bomb calorimeter."))).
  - vm_compute. reflexivity.
  - reflexivity.
  - reflexivity.
Defined.



(** X12: [send_message] returns an ["error"] result exactly when the prompt
    passed the gate and the request, the status check or the JSON decoding
    raised; the message is ["API Error: "] followed by the text of the
    exception. *)
Theorem error_result_iff (self : AIChat) (post : Request -> ApiReply)
    (user_prompt system_prompt message : string) :
  fst (send_message self post user_prompt system_prompt) = Returned (Error message) <->
  fst (check_input (moderator self) user_prompt) = true /\
  exists e,
    message = "API Error: " ++ e /\
    (post (build_request self user_prompt system_prompt) = PostRaises e \/
     post (build_request self user_prompt system_prompt) = StatusRaises e \/
     post (build_request self user_prompt system_prompt) = JsonRaises e).
Proof.
  unfold send_message.
  destruct (check_input (moderator self) user_prompt) as [[|] reason]; cbn [negb fst].
  2: { split; [discriminate | intros [H _]; discriminate]. }
  destruct (post _) as [m | m | m | ai_response].
  1-3: split;
    [ intros [= <-]; split; [reflexivity | exists m; auto]
    | intros [_ [e [-> [H | [H | H]]]]]; try discriminate; now injection H as -> ].
  split.
  - destruct (extract_content ai_response) as [content | exc]; cbn [bind];
      [| discriminate].
    destruct (moderate_output_obj (moderator self) content) as [[v [|]] | exc];
      discriminate.
  - intros [_ [e [_ [H | [H | H]]]]]; discriminate.
Qed.

Lemma error_result_iff_witness :
  fst (send_message (AIChat_init "key" "url" "openai/gpt-4o")
         (fun _ => PostRaises "Read timed out. (read timeout=30)")
         "What is the capital of France?" SYSTEM_PROMPT)
  = Returned (Error "API Error: Read timed out. (read timeout=30)").
Proof.
  apply (proj2 (error_result_iff (AIChat_init "key" "url" "openai/gpt-4o")
                  (fun _ => PostRaises "Read timed out. (read timeout=30)")
                  "What is the capital of France?" SYSTEM_PROMPT
                  "API Error: Read timed out. (read timeout=30)")).
  split; [vm_compute; reflexivity |].
  exists "Read timed out. (read timeout=30)". split; [reflexivity | left; reflexivity].
Defined.

(** ** Runs *)

Section Runs.

Context {A B : Type}.

Lemma ended_bind (c : IO A) (k : A -> IO B) (n : nat) :
  ended (io_bind c k n)
  = match ended (c n) with
    | Done a => ended (k a (List.length (posted (c n)) + n))
    | Failed e => Failed e
    | EndOfInput => EndOfInput
    end.
Proof. unfold io_bind. destruct (ended (c n)); reflexivity. Qed.

Lemma posted_bind (c : IO A) (k : A -> IO B) (n : nat) :
  posted (io_bind c k n)
  = (posted (c n)
     ++ match ended (c n) with
        | Done a => posted (k a (List.length (posted (c n)) + n))
        | _ => []
        end)%list.
Proof.
  unfold io_bind. destruct (ended (c n)); cbn [posted]; now rewrite ?app_nil_r.
Qed.

Lemma written_bind (c : IO A) (k : A -> IO B) (n : nat) :
  written (io_bind c k n)
  = (written (c n)
     ++ match ended (c n) with
        | Done a => written (k a (List.length (posted (c n)) + n))
        | _ => []
        end)%list.
Proof.
  unfold io_bind. destruct (ended (c n)); cbn [written]; now rewrite ?app_nil_r.
Qed.

End Runs.

Lemma silent_print (pieces : list Piece) : silent (print pieces) tt.
Proof. intros n. split; reflexivity. Qed.

Lemma ended_after_silent {A B : Type} (c : IO A) (a : A) (k : A -> IO B) (n : nat) :
  silent c a -> ended (io_bind c k n) = ended (k a n).
Proof. intros H. destruct (H n) as [He Hp]. now rewrite ended_bind, He, Hp. Qed.

Lemma posted_after_silent {A B : Type} (c : IO A) (a : A) (k : A -> IO B) (n : nat) :
  silent c a -> posted (io_bind c k n) = posted (k a n).
Proof. intros H. destruct (H n) as [He Hp]. now rewrite posted_bind, He, Hp. Qed.

(** [send_message_io] is [send_message] with the prints: same end, same
    requests. *)
Lemma send_message_io_agrees (world : World) (self : AIChat)
    (user_prompt system_prompt : string) (n : nat) :
  ended (send_message_io world self user_prompt system_prompt n)
  = as_ended (fst (send_message self (world n) user_prompt system_prompt)) /\
  posted (send_message_io world self user_prompt system_prompt n)
  = snd (send_message self (world n) user_prompt system_prompt).
Proof.
  unfold send_message_io, send_message.
  rewrite (ended_after_silent _ tt), (posted_after_silent _ tt) by apply silent_print.
  destruct (check_input (moderator self) user_prompt) as [[|] reason]; cbn [negb];
    [| split; reflexivity].
  rewrite !(ended_after_silent _ tt), !(posted_after_silent _ tt) by apply silent_print.
  rewrite ended_bind, posted_bind. cbn [do_post ended posted List.length fst snd].
  destruct (world n _) as [e | e | e | ai_response]; try (split; reflexivity).
  rewrite ended_bind, posted_bind.
  destruct (extract_content ai_response) as [ai_message | exc];
    cbn [lift ended posted bind as_ended]; [| split; reflexivity].
  rewrite !(ended_after_silent _ tt), !(posted_after_silent _ tt) by apply silent_print.
  rewrite ended_bind, posted_bind.
  destruct (moderate_output_obj (moderator self) ai_message) as [[v [|]] | exc];
    cbn [lift ended posted bind as_ended]; try (split; reflexivity);
    rewrite !(ended_after_silent _ tt), !(posted_after_silent _ tt) by apply silent_print;
    split; reflexivity.
Qed.

(** ** Showing a result *)

(** X13: on every dictionary that [send_message] returns with ASCII
    texts, the code of [main] that shows it finds each key it looks up: it
    returns and posts nothing.  A ["blocked"] dictionary without its
    ["reason"] would make it raise [KeyError]. *)
Theorem display_finds_its_keys :
  (forall (result : ChatResult) (n : nat),
      ascii_result result = true ->
      ended (display (as_dict result) n) = Done tt /\
      posted (display (as_dict result) n) = []) /\
  (forall n : nat,
      ended (display [ ("status", PStr "blocked");
                       ("message", PStr "Your input violated the moderation policy.") ] n)
      = Failed KeyError).
Proof.
  split.
  - intros [reason | message | message warning | message] n _; split; reflexivity.
  - intros n. reflexivity.
Qed.

Lemma display_finds_its_keys_witness :
  ended (display (as_dict (Moderated (PStr "Use a [REDACTED] calorimeter.")
                             redacted_warning)) 0) = Done tt /\
  posted (display (as_dict (Moderated (PStr "Use a [REDACTED] calorimeter.")
                              redacted_warning)) 0) = [].
Proof.
  apply (proj1 display_finds_its_keys
           (Moderated (PStr "Use a [REDACTED] calorimeter.") redacted_warning) 0).
  vm_compute. reflexivity.
Defined.

(** X14: on the dictionaries of [send_message], [run_tests] prints the
    line that says PASSED for the ["success"] results and for the
    ["error"] results, and for no other. *)
Theorem report_says_passed_iff (result : ChatResult) (n : nat) :
  In (Print [Lit "✅ Result: PASSED"]) (written (report (as_dict result) n)) <->
  (exists message, result = Success message) \/ (exists message, result = Error message).
Proof.
  destruct result as [reason | message | message warning | message].
  - cbn. split.
    + intros [H | []]. discriminate H.
    + intros [[m H] | [m H]]; discriminate H.
  - split; [intros _; right; now exists message |].
    intros _. cbn. left. reflexivity.
  - split; [| intros [[m H] | [m H]]; discriminate H].
    unfold report. cbn. destruct (slice100 message) as [shown | e]; cbn;
      intros H; repeat (destruct H as [H | H]; [discriminate H |]); contradiction.
  - split; [intros _; left; now exists message |].
    intros _. unfold report. cbn. left. reflexivity.
Qed.

Lemma report_says_passed_iff_witness :
  In (Print [Lit "✅ Result: PASSED"])
     (written (report (as_dict (Error "API Error: Read timed out.")) 0)).
Proof.
  apply (proj2 (report_says_passed_iff (Error "API Error: Read timed out.") 0)).
  right. exists "API Error: Read timed out.". reflexivity.
Defined.

(** ** run_tests *)

Lemma posts_nothing_bind {A B : Type} (c : IO A) (k : A -> IO B) :
  posts_nothing c -> (forall a, posts_nothing (k a)) -> posts_nothing (io_bind c k).
Proof.
  intros Hc Hk n. rewrite posted_bind, Hc. destruct (ended (c n)); [apply Hk | |]; reflexivity.
Qed.

Lemma posts_nothing_print (pieces : list Piece) : posts_nothing (print pieces).
Proof. intros n. reflexivity. Qed.

Lemma posts_nothing_lift {A : Type} (o : Outcome A) : posts_nothing (lift o).
Proof. intros n. reflexivity. Qed.

Lemma posts_nothing_ret {A : Type} (a : A) : posts_nothing (io_ret a).
Proof. intros n. reflexivity. Qed.

Ltac quiet :=
  repeat first
    [ apply posts_nothing_print
    | apply posts_nothing_lift
    | apply posts_nothing_ret
    | apply posts_nothing_bind; [| intros ?]
    | match goal with
      | |- posts_nothing (if ?b then _ else _) => destruct b
      end ].

Lemma report_posts_nothing (result : list (string * PyVal)) : posts_nothing (report result).
Proof. unfold report, lookup. quiet. Qed.

Lemma display_posts_nothing (result : list (string * PyVal)) :
  posts_nothing (display result).
Proof. unfold display, lookup. quiet. Qed.

Lemma send_message_log (self : AIChat) (post : Request -> ApiReply)
    (user_prompt system_prompt : string) :
  snd (send_message self post user_prompt system_prompt)
  = if fst (check_input (moderator self) user_prompt)
    then [build_request self user_prompt system_prompt] else [].
Proof.
  unfold send_message.
  destruct (check_input (moderator self) user_prompt) as [[|] reason]; reflexivity.
Qed.

Lemma send_message_blocked (self : AIChat) (post : Request -> ApiReply)
    (user_prompt system_prompt : string) :
  fst (check_input (moderator self) user_prompt) = false ->
  fst (send_message self post user_prompt system_prompt)
  = Returned (Blocked (snd (check_input (moderator self) user_prompt))).
Proof.
  unfold send_message.
  destruct (check_input (moderator self) user_prompt) as [[|] reason];
    [discriminate | reflexivity].
Qed.

Lemma report_blocked (reason : string) (n : nat) :
  ended (report (as_dict (Blocked reason)) n) = Done tt.
Proof. reflexivity. Qed.

Lemma tests_loop_posted (world : World) (chat : AIChat)
    (cases : list (string * string)) (i n : nat) :
  (exists k,
      posted (tests_loop world chat i cases n)
      = firstn k (map (fun prompt => build_request chat prompt SYSTEM_PROMPT)
                    (passing_prompts chat cases))) /\
  (ended (tests_loop world chat i cases n) = Done tt ->
   posted (tests_loop world chat i cases n)
   = map (fun prompt => build_request chat prompt SYSTEM_PROMPT)
       (passing_prompts chat cases)).
Proof.
  revert i n; induction cases as [|[prompt expected] rest IH]; intros i n.
  - split; [exists 0 |]; reflexivity.
  - cbn [tests_loop].
    rewrite !(ended_after_silent _ tt), !(posted_after_silent _ tt) by apply silent_print.
    rewrite ended_bind, posted_bind.
    destruct (send_message_io_agrees world chat prompt SYSTEM_PROMPT n) as [He Hp].
    rewrite He, Hp, send_message_log.
    unfold passing_prompts. cbn [map filter fst].
    destruct (fst (check_input (moderator chat) prompt)) eqn:Hgate.
    + cbn [map List.length]. 
      destruct (fst (send_message chat (world n) prompt SYSTEM_PROMPT)) as [result | e];
        cbn [as_ended].
      2: { split; [exists 1; reflexivity | discriminate]. }
      rewrite ended_bind, posted_bind.
      rewrite !(report_posts_nothing (as_dict result)).
      cbn [List.length app Nat.add].
      destruct (ended (report (as_dict result) (S n))) as [[] | e |].
      2-3: split; [exists 1; reflexivity | discriminate].
      destruct (IH (S i) (S n)) as [[k Hk] Hdone]. split.
      * exists (S k). cbn [firstn]. f_equal. exact Hk.
      * intros Hend. f_equal. now apply Hdone.
    + rewrite send_message_blocked by exact Hgate. cbn [as_ended List.length app Nat.add].
      rewrite ended_bind, posted_bind.
      rewrite !(report_posts_nothing (as_dict _)), report_blocked.
      cbn [List.length app Nat.add]. apply IH.
Qed.

(** X15: [run_tests] posts the prompts of its test cases that pass the gate
    of the chat, in their order, each with the default system prompt: all
    of them when it returns, the first ones when a call raises. *)
Theorem run_tests_posts_passing_prompts (world : World) (chat : AIChat) (n : nat) :
  (exists k,
      posted (run_tests world chat n)
      = firstn k (map (fun prompt => build_request chat prompt SYSTEM_PROMPT)
                    (passing_prompts chat test_cases))) /\
  (ended (run_tests world chat n) = Done tt ->
   posted (run_tests world chat n)
   = map (fun prompt => build_request chat prompt SYSTEM_PROMPT)
       (passing_prompts chat test_cases)).
Proof.
  unfold run_tests.
  rewrite !(ended_after_silent _ tt), !(posted_after_silent _ tt) by apply silent_print.
  rewrite ended_bind, posted_bind.
  destruct (tests_loop_posted world chat test_cases 1 n) as [[k Hk] Hdone].
  destruct (ended (tests_loop world chat 1 test_cases n)) as [[] | e |] eqn:E.
  - cbn [print posted]. rewrite app_nil_r. split; [now exists k | intros _; now apply Hdone].
  - rewrite app_nil_r. split; [now exists k | discriminate].
  - rewrite app_nil_r. split; [now exists k | discriminate].
Qed.

Lemma run_tests_posts_passing_prompts_witness :
  posted (run_tests (fun _ _ => PostRaises "Connection refused")
            (AIChat_init "key" API_URL MODEL) 0)
  = map (fun prompt => build_request (AIChat_init "key" API_URL MODEL) prompt SYSTEM_PROMPT)
      (passing_prompts (AIChat_init "key" API_URL MODEL) test_cases).
Proof.
  apply (proj2 (run_tests_posts_passing_prompts (fun _ _ => PostRaises "Connection refused")
                  (AIChat_init "key" API_URL MODEL) 0)).
  vm_compute. reflexivity.
Defined.

(** X16: under the vocabulary of the source the gate lets through the test
    prompts labelled ["Should pass"] and blocks the ones labelled
    ["Should be blocked"], so a [run_tests] that returns has posted the
    first, the second and the fifth prompt. *)
Theorem test_labels_agree_with_gate (key url name : string) :
  (forall prompt expected,
      In (prompt, expected) test_cases ->
      (fst (check_input (moderator (AIChat_init key url name)) prompt) = true <->
       expected = "Should pass") /\
      (fst (check_input (moderator (AIChat_init key url name)) prompt) = false <->
       expected = "Should be blocked")) /\
  passing_prompts (AIChat_init key url name) test_cases
  = [ "What is the capital of France?"; "How do I bake a cake?";
      "Tell me about cybersecurity" ].
Proof.
  split; [| vm_compute; reflexivity].
  intros prompt expected Hin. simpl in Hin.
  repeat (destruct Hin as [[= <- <-] | Hin];
          [vm_compute; repeat split; (reflexivity || discriminate) |]).
  contradiction.
Qed.

Lemma test_labels_agree_with_gate_witness :
  (fst (check_input (moderator (AIChat_init "key" API_URL MODEL)) "How to make a bomb") = true <->
   "Should be blocked" = "Should pass") /\
  (fst (check_input (moderator (AIChat_init "key" API_URL MODEL)) "How to make a bomb") = false <->
   "Should be blocked" = "Should be blocked").
Proof.
  apply (proj1 (test_labels_agree_with_gate "key" API_URL MODEL)
           "How to make a bomb" "Should be blocked").
  simpl. tauto.
Defined.

(** ** main *)

Lemma silent_ask : silent ask tt.
Proof. intros n. split; reflexivity. Qed.

Lemma main_loop_cons (world : World) (chat : AIChat) (line : string) (rest : list string) :
  main_loop world chat (line :: rest)
  = (ask ;;
     if String.eqb (strip line) "" then
       print [Lit "⚠️  Please enter a message"] ;;
       main_loop world chat rest
     else if String.eqb (lower (strip line)) "exit" then
       print [Lit (NL ++ "👋 Goodbye!")]
     else if String.eqb (lower (strip line)) "test" then
       run_tests world chat ;;
       main_loop world chat rest
     else
       result <- send_message_io world chat (strip line) SYSTEM_PROMPT ;;
       display (as_dict result) ;;
       main_loop world chat rest)%io.
Proof. reflexivity. Qed.

Lemma in_firstn {A : Type} (k : nat) (l : list A) (x : A) :
  In x (firstn k l) -> In x l.
Proof. intros H. rewrite <- (firstn_skipn k l). apply in_or_app. now left. Qed.

Lemma run_tests_posted (world : World) (chat : AIChat) (n : nat) (request : Request) :
  In request (posted (run_tests world chat n)) ->
  exists prompt,
    request = build_request chat prompt SYSTEM_PROMPT /\
    fst (check_input (moderator chat) prompt) = true /\
    In prompt (map fst test_cases).
Proof.
  unfold run_tests.
  rewrite !(posted_after_silent _ tt) by apply silent_print.
  rewrite posted_bind. intros Hin. apply in_app_or in Hin.
  destruct Hin as [Hin | Hin].
  - destruct (tests_loop_posted world chat test_cases 1 n) as [[k Hk] _].
    rewrite Hk in Hin. apply in_firstn in Hin. apply in_map_iff in Hin.
    destruct Hin as [prompt [<- Hp]]. apply filter_In in Hp.
    exists prompt. tauto.
  - destruct (ended _); [destruct Hin | |]; contradiction.
Qed.

Lemma main_loop_posted (world : World) (chat : AIChat) (stdin : list string)
    (n : nat) (request : Request) :
  In request (posted (main_loop world chat stdin n)) ->
  exists user_prompt,
    request = build_request chat user_prompt SYSTEM_PROMPT /\
    fst (check_input (moderator chat) user_prompt) = true /\
    from_input stdin user_prompt.
Proof.
  revert n; induction stdin as [|line rest IH]; intros n; [intros [] |].
  assert (Hrest : In request (posted (main_loop world chat rest n)) \/
                  (exists m, In request (posted (main_loop world chat rest m))) ->
                  exists user_prompt,
                    request = build_request chat user_prompt SYSTEM_PROMPT /\
                    fst (check_input (moderator chat) user_prompt) = true /\
                    from_input (line :: rest) user_prompt).
  { intros H. assert (exists m, In request (posted (main_loop world chat rest m))) as [m Hm]
      by (destruct H as [H | H]; [now exists n | exact H]).
    destruct (IH m Hm) as [u [Hu [Hgate Hfrom]]]. exists u. split; [exact Hu |].
    split; [exact Hgate |].
    destruct Hfrom as [Htest | [l [Hl Hu']]]; [now left | right].
    exists l. split; [now right | exact Hu']. }
  rewrite main_loop_cons, (posted_after_silent _ tt) by apply silent_ask.
  destruct (String.eqb (strip line) "") eqn:Hblank.
  { rewrite (posted_after_silent _ tt) by apply silent_print. intros H. apply Hrest. now left. }
  destruct (String.eqb (lower (strip line)) "exit"); [intros [] |].
  destruct (String.eqb (lower (strip line)) "test").
  - rewrite posted_bind. intros Hin. apply in_app_or in Hin. destruct Hin as [Hin | Hin].
    + destruct (run_tests_posted world chat n request Hin) as [p [Hp [Hgate Htest]]].
      exists p. split; [exact Hp |]. split; [exact Hgate | now left].
    + destruct (ended _); try contradiction. apply Hrest. right. eexists. exact Hin.
  - rewrite posted_bind. intros Hin. apply in_app_or in Hin. destruct Hin as [Hin | Hin].
    + destruct (send_message_io_agrees world chat (strip line) SYSTEM_PROMPT n) as [_ Hp].
      rewrite Hp, send_message_log in Hin.
      destruct (fst (check_input (moderator chat) (strip line))) eqn:Hgate; [| contradiction].
      destruct Hin as [<- | []]. exists (strip line). split; [reflexivity |].
      split; [exact Hgate |]. right. exists line. split; [now left |]. split; [reflexivity |].
      now apply String.eqb_neq.
    + destruct (ended _); try contradiction.
      rewrite posted_bind, display_posts_nothing in Hin. cbn [app] in Hin.
      destruct (ended _); try contradiction. apply Hrest. right. eexists. exact Hin.
Qed.

(** X17: every request that [main] posts carries the default system prompt
    and a user prompt in which no keyword of [BANNED_KEYWORDS] occurs, case
    ignored; the user prompt is a test prompt or a line of the input,
    stripped and not empty. *)
Theorem main_posts_only_gated_prompts (world : World) (API_KEY : string)
    (stdin : list string) (n : nat) (request : Request) :
  In request (posted (main world API_KEY stdin n)) ->
  exists user_prompt,
    request = build_request (AIChat_init API_KEY API_URL MODEL) user_prompt SYSTEM_PROMPT /\
    (forall keyword, In keyword BANNED_KEYWORDS -> ~ occurs_ci keyword user_prompt) /\
    (In user_prompt (map fst test_cases) \/
     exists line, In line stdin /\ user_prompt = strip line /\ user_prompt <> "").
Proof.
  unfold main.
  rewrite !(posted_after_silent _ tt) by apply silent_print.
  intros Hin. destruct (main_loop_posted _ _ _ _ _ Hin) as [u [Hu [Hgate Hfrom]]].
  exists u. split; [exact Hu |]. split; [| exact Hfrom].
  intros k Hk. unfold occurs_ci.
  apply (check_input_safe_clean _ _ Hgate).
  change (In (lower k) (map lower BANNED_KEYWORDS)). now apply in_map.
Qed.

Lemma main_posts_only_gated_prompts_witness :
  exists user_prompt,
    build_request (AIChat_init "key" API_URL MODEL) "Tell me a joke" SYSTEM_PROMPT
    = build_request (AIChat_init "key" API_URL MODEL) user_prompt SYSTEM_PROMPT /\
    (forall keyword, In keyword BANNED_KEYWORDS -> ~ occurs_ci keyword user_prompt) /\
    (In user_prompt (map fst test_cases) \/
     exists line, In line ["  Tell me a joke "; "exit"] /\
                  user_prompt = strip line /\ user_prompt <> "").
Proof.
  apply (main_posts_only_gated_prompts (fun _ _ => JsonBody (envelope (PStr "No.")))
           "key" ["  Tell me a joke "; "exit"] 0).
  vm_compute. left. reflexivity.
Defined.

Lemma io_bind_ext {A B : Type} (c : IO A) (k k' : A -> IO B) (n : nat) :
  (forall a m, k a m = k' a m) -> io_bind c k n = io_bind c k' n.
Proof. intros H. unfold io_bind. destruct (ended (c n)); now rewrite ?H. Qed.

Lemma exit_line_not_blank (line : string) :
  lower (strip line) = "exit" -> String.eqb (strip line) "" = false.
Proof.
  intros H. apply String.eqb_neq. intros Hblank. rewrite Hblank in H. discriminate H.
Qed.

Lemma main_loop_exit_stops (world : World) (chat : AIChat)
    (before : list string) (line : string) (after : list string) (n : nat) :
  lower (strip line) = "exit" ->
  main_loop world chat (before ++ line :: after) n
  = main_loop world chat (before ++ [line]) n.
Proof.
  intros Hexit. revert n; induction before as [|l before IH]; intros n.
  - cbn [app]. rewrite !main_loop_cons, exit_line_not_blank, Hexit by exact Hexit.
    reflexivity.
  - cbn [app]. rewrite !main_loop_cons. apply io_bind_ext. intros _ m.
    destruct (String.eqb (strip l) ""); [apply io_bind_ext; intros; apply IH |].
    destruct (String.eqb (lower (strip l)) "exit"); [reflexivity |].
    destruct (String.eqb (lower (strip l)) "test"); [apply io_bind_ext; intros; apply IH |].
    apply io_bind_ext. intros result m'. apply io_bind_ext. intros; apply IH.
Qed.

Lemma main_loop_done (world : World) (chat : AIChat) (stdin : list string) (n : nat) :
  ended (main_loop world chat stdin n) = Done tt ->
  exists before line after,
    stdin = (before ++ line :: after)%list /\ lower (strip line) = "exit" /\
    forall l, In l before -> lower (strip l) <> "exit".
Proof.
  revert n; induction stdin as [|line rest IH]; intros n; [discriminate |].
  assert (Hrest : forall m, ended (main_loop world chat rest m) = Done tt ->
            lower (strip line) <> "exit" ->
            exists before l after,
              (line :: rest = before ++ l :: after)%list /\ lower (strip l) = "exit" /\
              forall l', In l' before -> lower (strip l') <> "exit").
  { intros m Hm Hline. destruct (IH m Hm) as [before [l [after [-> [Hl Hbefore]]]]].
    exists (line :: before), l, after. split; [reflexivity |]. split; [exact Hl |].
    intros l' [<- | Hl']; auto. }
  rewrite main_loop_cons, (ended_after_silent _ tt) by apply silent_ask.
  destruct (String.eqb (lower (strip line)) "exit") eqn:Hexit.
  { intros _. apply String.eqb_eq in Hexit. exists [], line, rest.
    split; [reflexivity |]. split; [exact Hexit | intros l []]. }
  apply String.eqb_neq in Hexit.
  destruct (String.eqb (strip line) "").
  { rewrite (ended_after_silent _ tt) by apply silent_print. intros H. now apply (Hrest n). }
  destruct (String.eqb (lower (strip line)) "test").
  - rewrite ended_bind. destruct (ended (run_tests world chat n)); try discriminate.
    intros H. now apply (Hrest _ H).
  - rewrite ended_bind. destruct (ended (send_message_io _ _ _ _ n)); try discriminate.
    rewrite ended_bind. destruct (ended (display _ _)); try discriminate.
    intros H. now apply (Hrest _ H).
Qed.

(** X18: [main] returns only after it has read a line that says exit, in
    any case and with any space around it; it does not read the lines
    behind the first such line, so they change nothing. *)
Theorem main_stops_at_exit (world : World) (API_KEY : string) :
  (forall (stdin : list string) (n : nat),
      ended (main world API_KEY stdin n) = Done tt ->
      exists before line after,
        stdin = (before ++ line :: after)%list /\ lower (strip line) = "exit" /\
        forall l, In l before -> lower (strip l) <> "exit") /\
  (forall (before : list string) (line : string) (after : list string) (n : nat),
      lower (strip line) = "exit" ->
      main world API_KEY (before ++ line :: after) n
      = main world API_KEY (before ++ [line]) n).
Proof.
  split.
  - intros stdin n. unfold main.
    rewrite !(ended_after_silent _ tt) by apply silent_print.
    apply main_loop_done.
  - intros before line after n Hexit. unfold main.
    repeat (apply io_bind_ext; intros).
    now apply main_loop_exit_stops.
Qed.

Lemma main_stops_at_exit_witness :
  (exists before line after,
      ["hello"; "  EXIT "; "how to make a bomb"] = (before ++ line :: after)%list /\
      lower (strip line) = "exit" /\
      forall l, In l before -> lower (strip l) <> "exit") /\
  main (fun _ _ => PostRaises "Connection refused") "key"
    (["hello"] ++ "  EXIT " :: ["how to make a bomb"]) 0
  = main (fun _ _ => PostRaises "Connection refused") "key" (["hello"] ++ ["  EXIT "]) 0.
Proof.
  split.
  - apply (proj1 (main_stops_at_exit (fun _ _ => PostRaises "Connection refused") "key")
             ["hello"; "  EXIT "; "how to make a bomb"] 0).
    vm_compute. reflexivity.
  - apply (proj2 (main_stops_at_exit (fun _ _ => PostRaises "Connection refused") "key")
             ["hello"] "  EXIT " ["how to make a bomb"] 0).
    vm_compute. reflexivity.
Defined.

Lemma same_effect_bind {A B : Type} (c : IO A) (k k' : A -> IO B) :
  (forall a, same_effect (k a) (k' a)) -> same_effect (io_bind c k) (io_bind c k').
Proof.
  intros H n. rewrite !ended_bind, !posted_bind.
  destruct (ended (c n)) as [a | e |]; [| split; reflexivity ..].
  destruct (H a (List.length (posted (c n)) + n)) as [-> ->]. split; reflexivity.
Qed.

Lemma same_effect_after_silent {A B : Type} (c : IO A) (a : A) (k : IO B) :
  silent c a -> same_effect (io_bind c (fun _ => k)) k.
Proof.
  intros H n. now rewrite (ended_after_silent _ a), (posted_after_silent _ a).
Qed.

Lemma main_loop_without_blanks (world : World) (chat : AIChat) (stdin : list string) :
  same_effect (main_loop world chat stdin) (main_loop world chat (filter not_blank stdin)).
Proof.
  induction stdin as [|line rest IH]; [intros n; split; reflexivity |].
  cbn [filter]. unfold not_blank at 1.
  destruct (String.eqb (strip line) "") eqn:Hblank; cbn [negb].
  - intros n. rewrite main_loop_cons, Hblank.
    rewrite (ended_after_silent _ tt), (posted_after_silent _ tt) by apply silent_ask.
    rewrite (ended_after_silent _ tt), (posted_after_silent _ tt) by apply silent_print.
    apply IH.
  - rewrite !main_loop_cons, Hblank. apply same_effect_bind. intros _.
    destruct (String.eqb (lower (strip line)) "exit"); [intros n; split; reflexivity |].
    destruct (String.eqb (lower (strip line)) "test");
      [apply same_effect_bind; intros _; exact IH |].
    apply same_effect_bind. intros result. apply same_effect_bind. intros _. exact IH.
Qed.

(** X19: lines that are empty once stripped cost nothing: with them or
    without them [main] ends the same way and posts the same requests. *)
Theorem blank_lines_change_nothing (world : World) (API_KEY : string)
    (stdin : list string) (n : nat) :
  ended (main world API_KEY stdin n)
  = ended (main world API_KEY
             (filter (fun line => negb (String.eqb (strip line) "")) stdin) n) /\
  posted (main world API_KEY stdin n)
  = posted (main world API_KEY
              (filter (fun line => negb (String.eqb (strip line) "")) stdin) n).
Proof.
  unfold main.
  rewrite !(ended_after_silent _ tt), !(posted_after_silent _ tt) by apply silent_print.
  apply main_loop_without_blanks.
Qed.

(** ** Where a run fails *)

Lemma io_bind_failed {A B : Type} (c : IO A) (k k' : A -> IO B) (n : nat) (e : PyExc) :
  ended (c n) = Failed e -> io_bind c k n = io_bind c k' n.
Proof. intros H. unfold io_bind. now rewrite H. Qed.

Lemma io_bind_after_silent {A B : Type} (c : IO A) (a : A) (k k' : A -> IO B) (n : nat) :
  silent c a -> k a n = k' a n -> io_bind c k n = io_bind c k' n.
Proof.
  intros H Hk. destruct (H n) as [He Hp]. unfold io_bind. rewrite He, Hp.
  cbn [List.length Nat.add]. now rewrite Hk.
Qed.

(** X20: when a line of ASCII input that is no command passes the gate and
    the response to it has a parsed body on which the extraction raises,
    that exception leaves [main]: the run has posted that one request and
    reads none of the lines behind. *)
Theorem bad_body_ends_main (world : World) (API_KEY line : string)
    (rest : list string) (ai_response : PyVal) (e : PyExc) :
  ascii_only line = true ->
  strip line <> "" ->
  lower (strip line) <> "exit" ->
  lower (strip line) <> "test" ->
  fst (check_input (moderator (AIChat_init API_KEY API_URL MODEL)) (strip line)) = true ->
  world 0 (build_request (AIChat_init API_KEY API_URL MODEL) (strip line) SYSTEM_PROMPT)
  = JsonBody ai_response ->
  extract_content ai_response = Raised e ->
  ended (main world API_KEY (line :: rest) 0) = Failed e /\
  posted (main world API_KEY (line :: rest) 0)
  = [build_request (AIChat_init API_KEY API_URL MODEL) (strip line) SYSTEM_PROMPT] /\
  main world API_KEY (line :: rest) 0 = main world API_KEY [line] 0.
Proof.
  intros _ Hblank Hexit Htest Hsafe Hreply Hbad.
  apply String.eqb_neq in Hblank, Hexit, Htest.
  set (chat := AIChat_init API_KEY API_URL MODEL) in *.
  destruct (send_message_io_agrees world chat (strip line) SYSTEM_PROMPT 0) as [He Hp].
  rewrite (send_message_bad_body chat (world 0) _ _ ai_response e Hsafe Hreply Hbad) in He.
  rewrite send_message_log, Hsafe in Hp. cbn [as_ended] in He.
  unfold main. fold chat.
  rewrite !(ended_after_silent _ tt), !(posted_after_silent _ tt) by apply silent_print.
  split; [| split].
  - rewrite main_loop_cons, (ended_after_silent _ tt) by apply silent_ask.
    rewrite Hblank, Hexit, Htest, ended_bind, He. reflexivity.
  - rewrite main_loop_cons, (posted_after_silent _ tt) by apply silent_ask.
    rewrite Hblank, Hexit, Htest, posted_bind, He, Hp. reflexivity.
  - repeat (apply (io_bind_after_silent _ tt); [apply silent_print |]).
    rewrite !main_loop_cons.
    apply (io_bind_after_silent _ tt); [apply silent_ask |].
    rewrite Hblank, Hexit, Htest.
    now apply (io_bind_failed _ _ _ 0 e).
Qed.

Lemma bad_body_ends_main_witness :
  ended (main (fun _ _ => JsonBody (PDict [("error", PStr "overloaded")]))
           "key" ["  Hello there "; "exit"] 0) = Failed KeyError /\
  posted (main (fun _ _ => JsonBody (PDict [("error", PStr "overloaded")]))
            "key" ["  Hello there "; "exit"] 0)
  = [build_request (AIChat_init "key" API_URL MODEL) (strip "  Hello there ") SYSTEM_PROMPT] /\
  main (fun _ _ => JsonBody (PDict [("error", PStr "overloaded")]))
    "key" ["  Hello there "; "exit"] 0
  = main (fun _ _ => JsonBody (PDict [("error", PStr "overloaded")]))
      "key" ["  Hello there "] 0.
Proof.
  apply (bad_body_ends_main (fun _ _ => JsonBody (PDict [("error", PStr "overloaded")]))
           "key" "  Hello there " ["exit"] (PDict [("error", PStr "overloaded")]) KeyError);
    vm_compute; (reflexivity || discriminate).
Defined.
